(** * diagnnose: initial states, selection predicates and contrastive accuracy

  A shallow embedding of
    - [diagnnose/activations/selection_funcs.py]  (module [SelectionFuncs]),
    - [diagnnose/activations/init_states.py]      (module [InitStates]),
    - [diagnnose/downstream/tasks/task.py]        (module [Task]),
    - the scoring block of [diagnnose/downstream/warstadt/downstream.py]
      (module [Warstadt]).

  Conventions.
    - A torch / numpy array is a shape together with its row-major
      storage ([tensor]); the torch operations the source calls are
      modelled on that representation in module [Torch].
    - float32 numbers are idealised as real numbers ([R]): no rounding, no
      infinities; the one special value kept is the [NaN] that
      [torch.mean] returns on an empty tensor.
    - A Python exception is a value of [error]; code that can raise
      returns a [result]. *)

From Stdlib Require Import List ZArith Reals Lra Lia String Bool.
From stdpp Require Import gmap strings list pretty.
Import ListNotations.


(** ** Python exceptions and the result monad *)

Module Py.

Inductive error : Type :=
| KeyError (key : string)        (* [d[key]] on a dict without [key] *)
| LayerKeyError (layer : nat)    (* [init_states[layer]], integer key *)
| IndexError                     (* index out of range, bad index dtype or mask shape *)
| RuntimeError                   (* torch shape mismatch *)
| TypeError                      (* [len()] of a 0-d array *)
| AssertionError (msg : string).

Inductive result (A : Type) : Type :=
| Ok (a : A)
| Err (e : error).
Arguments Ok {A} a.
Arguments Err {A} e.

#[export] Instance result_ret : MRet result := fun _ a => Ok a.
#[export] Instance result_bind : MBind result := fun _ _ f m =>
  match m with
  | Ok a => f a
  | Err e => Err e
  end.

(** [assert cond, msg] *)
Definition assert (cond : bool) (msg : string) : result unit :=
  if cond then Ok tt else Err (AssertionError msg).

(** A [for] loop whose body can raise: the first exception stops it. *)
Fixpoint for_each {A : Type} (body : A → result unit) (l : list A) : result unit :=
  match l with
  | [] => Ok tt
  | x :: l' => _ ← body x; for_each body l'
  end.

(** A list comprehension whose element expression can raise. *)
Fixpoint comprehension {A B : Type} (f : A → result B) (l : list A) : result (list B) :=
  match l with
  | [] => Ok []
  | x :: l' => y ← f x; ys ← comprehension f l'; Ok (y :: ys)
  end.

Definition is_ok {A : Type} (r : result A) : bool :=
  match r with Ok _ => true | Err _ => false end.

(** A Python float as the source returns it from [.item()]. *)
Inductive pyfloat : Type :=
| NaN
| Fin (r : R).

(** The closed unit interval; [NaN] lies outside every interval. *)
Definition in_unit_interval (x : pyfloat) : Prop :=
  match x with
  | NaN => False
  | Fin r => (0 <= r <= 1)%R
  end.

End Py.
Export Py.

(** ** Tensors: shape and row-major storage *)

Module Torch.

Record tensor (T : Type) : Type := mkTensor { shape : list nat; data : list T }.
Arguments mkTensor {T} shape data.
Arguments shape {T} t.
Arguments data {T} t.

(** Number of elements of a shape. *)
Definition numel (s : list nat) : nat := foldr Nat.mul 1 s.

(** The [n] consecutive rows of length [m] of a storage. *)
Fixpoint rows_of {T : Type} (n m : nat) (d : list T) : list (list T) :=
  match n with
  | 0 => []
  | S n' => take m d :: rows_of n' m (drop m d)
  end.

(** A 1-D tensor from a list, a 2-D tensor from its rows of width [m]. *)
Definition of_list {T : Type} (l : list T) : tensor T := mkTensor [length l] l.
Definition of_rows {T : Type} (m : nat) (l : list (list T)) : tensor T :=
  mkTensor [length l; m] (concat l).

(** Index tensors.  [torch.tensor] of a list of Python ints is an int64
    tensor, except that the empty list gives an (empty) float32 tensor,
    which torch refuses as an index. *)
Inductive dtype : Type := Int64 | Float32.

Record itensor : Type := mkITensor { idtype : dtype; ishape : list nat; idata : list nat }.

Definition torch_tensor (l : list nat) : itensor :=
  mkITensor (match l with [] => Float32 | _ => Int64 end) [length l] l.

(** [t.unsqueeze(d)] *)
Definition unsqueeze {T : Type} (d : nat) (t : tensor T) : result (tensor T) :=
  if d <=? length (shape t)
  then Ok (mkTensor (take d (shape t) ++ 1 :: drop d (shape t)) (data t))
  else Err IndexError.

(** [t.squeeze()]: every dimension of size 1 is removed. *)
Definition squeeze {T : Type} (t : tensor T) : tensor T :=
  mkTensor (filter (λ d, d ≠ 1) (shape t)) (data t).

(** [t[idx]] with an integer index tensor: rows of [t] along dimension 0. *)
Definition index {T : Type} (t : tensor T) (idx : itensor) : result (tensor T) :=
  match idtype idx, shape t with
  | Float32, _ => Err IndexError
  | Int64, [] => Err IndexError
  | Int64, d0 :: rest =>
      if forallb (λ i, i <? d0) (idata idx)
      then Ok (mkTensor (ishape idx ++ rest)
                 (concat (map (λ i, take (numel rest) (drop (i * numel rest) (data t)))
                            (idata idx))))
      else Err IndexError
  end.

(** [t[mask]] with a uint8 mask over dimension 0. *)
Definition keep {A : Type} (mask : list bool) (l : list A) : list A :=
  map snd (filter (λ p, fst p = true) (zip mask l)).

Definition mask_select {T : Type} (t : tensor T) (mask : list bool) : result (tensor T) :=
  match shape t with
  | [] => Err IndexError
  | d0 :: rest =>
      if length mask =? d0
      then let kept := keep mask (rows_of d0 (numel rest) (data t)) in
           Ok (mkTensor (length kept :: rest) (concat kept))
      else Err IndexError
  end.

Definition imask_select (t : itensor) (mask : list bool) : result itensor :=
  match ishape t with
  | [d0] =>
      if length mask =? d0
      then let kept := keep mask (idata t) in
           Ok (mkITensor (idtype t) [length kept] kept)
      else Err IndexError
  | _ => Err IndexError
  end.

(** Broadcasting.  Shapes are aligned on the right; two sizes are
    compatible when they are equal or one of them is 1. *)
Fixpoint broadcast_rev (s1 s2 : list nat) : option (list nat) :=
  match s1, s2 with
  | [], s | s, [] => Some s
  | a :: s1', b :: s2' =>
      r ← broadcast_rev s1' s2';
      if a =? b then Some (a :: r)
      else if a =? 1 then Some (b :: r)
      else if b =? 1 then Some (a :: r)
      else None
  end.

Definition broadcast_shapes (s1 s2 : list nat) : option (list nat) :=
  option_map (@rev nat) (broadcast_rev (rev s1) (rev s2)).

(** Left-pad a shape with 1s up to rank [k]. *)
Definition pad_shape (k : nat) (s : list nat) : list nat :=
  replicate (k - length s) 1 ++ s.

(** Storage of a tensor of shape [src] expanded to shape [tgt] (same rank,
    every size of [src] equal to that of [tgt] or 1). *)
Fixpoint expand {T : Type} (src tgt : list nat) (d : list T) : list T :=
  match src, tgt with
  | s :: src', t :: tgt' =>
      let chunks := map (expand src' tgt') (rows_of s (numel src') d) in
      if s =? t then concat chunks
      else concat (replicate t (concat chunks))
  | _, _ => d
  end.

(** An elementwise binary operation with broadcasting (out of place). *)
Definition broadcast_map2 {A B C : Type} (f : A → B → C)
    (a : tensor A) (b : tensor B) : result (tensor C) :=
  match broadcast_shapes (shape a) (shape b) with
  | Some s =>
      Ok (mkTensor s
            (zip_with f
               (expand (pad_shape (length s) (shape a)) s (data a))
               (expand (pad_shape (length s) (shape b)) s (data b))))
  | None => Err RuntimeError
  end.

(** The in-place form ([a += b]): the broadcast shape has to be the shape
    of [a] itself. *)
Definition broadcast_map2_ {A B : Type} (f : A → B → A)
    (a : tensor A) (b : tensor B) : result (tensor A) :=
  match broadcast_shapes (shape a) (shape b) with
  | Some s =>
      if decide (s = shape a) then broadcast_map2 f a b else Err RuntimeError
  | None => Err RuntimeError
  end.

Definition add (a b : tensor R) : result (tensor R) := broadcast_map2 Rplus a b.
Definition add_ (a b : tensor R) : result (tensor R) := broadcast_map2_ Rplus a b.

(** Comparisons give a tensor of booleans. *)
Definition Rgeb (x y : R) : bool := if Rge_dec x y then true else false.
Definition Rgtb (x y : R) : bool := if Rgt_dec x y then true else false.

Definition ge (a b : tensor R) : result (tensor bool) := broadcast_map2 Rgeb a b.
Definition gt (a b : tensor R) : result (tensor bool) := broadcast_map2 Rgtb a b.

(** [t.to(torch.float)] on a boolean tensor. *)
Definition bool_to_R (b : bool) : R := if b then 1%R else 0%R.
Definition to_float (t : tensor bool) : tensor R :=
  mkTensor (shape t) (map bool_to_R (data t)).

(** [torch.mean(t).item()]: the mean of all elements; [NaN] (0/0) on an
    empty tensor. *)
Definition Rsum (l : list R) : R := foldr Rplus 0%R l.

Definition mean (t : tensor R) : pyfloat :=
  match data t with
  | [] => NaN
  | _ => Fin (Rsum (data t) / INR (length (data t)))
  end.

(** Inner product of two storages of equal length. *)
Definition dot (u v : list R) : R := Rsum (zip_with Rmult u v).

(** Column [j] of a list of rows. *)
Definition column (j : nat) (rows : list (list R)) : list R :=
  map (λ r, nth j r 0%R) rows.

(** The product of an [n x m] by an [m x p] matrix, by rows. *)
Definition matmul_rows (p : nat) (a b : list (list R)) : list (list R) :=
  map (λ r, map (λ j, dot r (column j b)) (seq 0 p)) a.

(** [torch.bmm(a, b)]: both operands are 3-D, with equal batch sizes and
    matching inner sizes. *)
Definition bmm (a b : tensor R) : result (tensor R) :=
  match shape a, shape b with
  | [ba; n; m], [bb; m'; p] =>
      if (ba =? bb) && (m =? m')
      then Ok (mkTensor [ba; n; p]
                 (concat (zip_with
                            (λ x y, concat (matmul_rows p (rows_of n m x) (rows_of m p y)))
                            (rows_of ba (n * m) (data a))
                            (rows_of bb (m * p) (data b)))))
      else Err RuntimeError
  | _, _ => Err RuntimeError
  end.

(** [t.t()]: transpose of a 2-D tensor (tensors of rank below 2 are
    returned as they are, higher ranks are refused). *)
Definition t_ (t : tensor R) : result (tensor R) :=
  match shape t with
  | [] | [_] => Ok t
  | [r; c] =>
      Ok (mkTensor [c; r] (concat (map (λ j, column j (rows_of r c (data t))) (seq 0 c))))
  | _ => Err RuntimeError
  end.

(** [a @ b] for two 2-D operands, the only ranks the source multiplies. *)
Definition matmul (a b : tensor R) : result (tensor R) :=
  match shape a, shape b with
  | [n; m], [m'; p] =>
      if m =? m'
      then Ok (mkTensor [n; p]
                 (concat (matmul_rows p (rows_of n m (data a)) (rows_of m p (data b)))))
      else Err RuntimeError
  | _, _ => Err RuntimeError
  end.

(** [log_softmax(t, dim=1)] on a 2-D tensor: every entry minus the
    logarithm of the sum of the exponentials of its row. *)
Definition logsumexp (row : list R) : R := ln (Rsum (map exp row)).

Definition log_softmax_row (row : list R) : list R :=
  map (λ x, (x - logsumexp row)%R) row.

Definition log_softmax_dim1 (t : tensor R) : result (tensor R) :=
  match shape t with
  | [n; v] => Ok (mkTensor [n; v] (concat (map log_softmax_row (rows_of n v (data t)))))
  | _ => Err IndexError
  end.

(** [t[rows, cols]] with two index sequences (advanced indexing on a 2-D
    tensor): the sequences are broadcast against each other and entry
    [(rows[k], cols[k])] is picked for every [k]. *)
Definition index_pairs {T : Type} (t : tensor T) (rows : list nat) (cols : itensor)
    : result (tensor T) :=
  match idtype cols, shape t, ishape cols with
  | Int64, [r; c], [_] =>
      match broadcast_shapes [length rows] [length (idata cols)] with
      | Some s =>
          let rs := expand [length rows] s rows in
          let cs := expand [length (idata cols)] s (idata cols) in
          picked ← comprehension
            (λ ij, if (ij.1 <? r) && (ij.2 <? c)
                   then match data t !! (ij.1 * c + ij.2) with
                        | Some x => Ok x
                        | None => Err IndexError
                        end
                   else Err IndexError)
            (zip rs cs);
          Ok (mkTensor s picked)
      | None => Err IndexError
      end
  | _, _, _ => Err IndexError
  end.

End Torch.
Export Torch.

Open Scope string_scope.

(** ** The corpus *)

Module Corpus.

(** A corpus item (a torchtext [Example]) with the fields the evaluated
    code reads. *)
Record Example : Type := mkExample {
  sen : list string;
  counter_sen : list string;
  token : string;
  counter_token : string;
  sen_idx : nat
}.

(** A corpus: its examples in order and the token-to-id mapping
    [corpus.vocab.stoi]. *)
Record Corpus : Type := mkCorpus {
  examples : list Example;
  stoi : gmap string nat
}.

(** Modelled from the spec: the class of [corpus.vocab.stoi] is declared
    outside the files at hand.  Following the spec, [stoi[w]] on a string
    that is absent from the vocabulary fails with a vocabulary-lookup
    error (Python's [KeyError]); no default id is substituted. *)
Definition stoi_getitem (corpus : Corpus) (w : string) : result nat :=
  match stoi corpus !! w with
  | Some i => Ok i
  | None => Err (KeyError w)
  end.

(** Modelled from the spec: [w in stoi] holds exactly for the tokens of
    the vocabulary. *)
Definition stoi_contains (corpus : Corpus) (w : string) : bool :=
  bool_decide (is_Some (stoi corpus !! w)).

End Corpus.
Export Corpus.

(** ** diagnnose/activations/selection_funcs.py *)

Module SelectionFuncs.

(** Token positions are Python ints. *)
Definition return_all (_w_idx : Z) (_item : Example) : bool := true.

Definition final_token (w_idx : Z) (item : Example) : bool :=
  (Z.of_nat (length (sen item)) =? w_idx + 1)%Z.

Definition first_n (n : Z) (_w_idx : Z) (item : Example) : bool :=
  (Z.of_nat (sen_idx item) <? n)%Z.

Definition nth_token (n : Z) (w_idx : Z) (_item : Example) : bool :=
  (w_idx =? n)%Z.

End SelectionFuncs.

(** ** diagnnose/activations/init_states.py *)

Module InitStates.

Inductive backend : Type := Numpy | Pytorch.

(** A [np.ndarray] or a [torch.Tensor] of float32. *)
Record array : Type := mkArray { array_type : backend; arr : tensor R }.

(** [model.sizes[layer]], a dict with the keys ['h'] and ['c']. *)
Record layer_size : Type := mkLayerSize { h : nat; c : nat }.

(** The attributes [__init__] stores.  [sizes] is a Python dict, kept as
    the list of its items in iteration order. *)
Record InitStates : Type := mkInitStates {
  sizes : list (nat * layer_size);
  num_layers : nat;
  batch_size : option nat;
  use_np_arrays : bool
}.

(** [self.sizes[layer]] *)
Definition sizes_getitem (self : InitStates) (layer : nat) : result layer_size :=
  match list_find (λ kv, kv.1 = layer) (sizes self) with
  | Some (_, kv) => Ok kv.2
  | None => Err (LayerKeyError layer)
  end.

(** [len(x)]: the size of the first dimension. *)
Definition len (x : array) : result nat :=
  match shape (arr x) with
  | [] => Err TypeError
  | d :: _ => Ok d
  end.

Definition count_msg : string := "Number of initial layers not correct".
Definition names_msg : string := "Initial layer names not correct, should be hx and cx".
Definition size_msg (field : string) (actual expected : nat) : string :=
  "Initial activation size for " ++ field ++ " is incorrect: "
  ++ field ++ ": " ++ pretty actual ++ ", should be " ++ pretty expected.

(** [init_states[layer]] and [init_state_dict[name]] *)
Definition layer_getitem (init_states : gmap nat (gmap string array)) (layer : nat)
    : result (gmap string array) :=
  match init_states !! layer with
  | Some d => Ok d
  | None => Err (LayerKeyError layer)
  end.

Definition name_getitem (d : gmap string array) (name : string) : result array :=
  match d !! name with
  | Some x => Ok x
  | None => Err (KeyError name)
  end.

Definition has_key (d : gmap string array) (name : string) : bool :=
  bool_decide (is_Some (d !! name)).

(** One iteration of the loop of [_validate]. *)
Definition validate_layer (self : InitStates)
    (init_states : gmap nat (gmap string array)) (item : nat * layer_size) : result unit :=
  let layer := item.1 in
  init_state_dict ← layer_getitem init_states layer;
  _ ← assert (has_key init_state_dict "hx" && has_key init_state_dict "cx") names_msg;
  hx ← name_getitem init_state_dict "hx";
  n_hx ← len hx;
  sz ← sizes_getitem self layer;
  _ ← assert (n_hx =? h sz)%nat (size_msg "hx" n_hx (h sz));
  cx ← name_getitem init_state_dict "cx";
  n_cx ← len cx;
  sz' ← sizes_getitem self layer;
  assert (n_cx =? c sz')%nat (size_msg "cx" n_cx (c sz')).

Definition _validate (self : InitStates)
    (init_states : gmap nat (gmap string array)) : result unit :=
  _ ← assert (size init_states =? num_layers self)%nat count_msg;
  for_each (validate_layer self init_states) (sizes self).

(** [np.zeros(shape, dtype=np.float32)] and [torch.zeros(shape)] *)
Definition zeros (b : backend) (s : list nat) : array :=
  mkArray b (mkTensor s (replicate (numel s) 0%R)).

Definition _create_zero_state (self : InitStates) (size : nat) : array :=
  match batch_size self with
  | Some bs =>
      if use_np_arrays self then zeros Numpy [bs; size] else zeros Pytorch [bs; size]
  | None =>
      if use_np_arrays self then zeros Numpy [size] else zeros Pytorch [size]
  end.

Definition create_zero_init_states (self : InitStates)
    : result (gmap nat (gmap string array)) :=
  items ← comprehension
    (λ l, sz_c ← sizes_getitem self l;
          sz_h ← sizes_getitem self l;
          Ok (l, ({[ "cx" := _create_zero_state self (c sz_c);
                     "hx" := _create_zero_state self (h sz_h) ]} : gmap string array)))
    (seq 0 (num_layers self));
  Ok (list_to_map items).

(** [create]: [loaded] is the unpickled content of [init_lstm_states_path]
    when a path was given. *)
Definition create (self : InitStates) (loaded : option (gmap nat (gmap string array)))
    : result (gmap nat (gmap string array)) :=
  match loaded with
  | Some init_states => _ ← _validate self init_states; Ok init_states
  | None => create_zero_init_states self
  end.

End InitStates.

(** ** diagnnose/downstream/tasks/task.py *)

Module Task.

(** The part of the language model the accuracy code reads. *)
Record LanguageModel : Type := mkLanguageModel {
  decoder_w : tensor R;   (* vocab_size x hidden_size *)
  decoder_b : tensor R    (* vocab_size *)
}.

Definition warn_msg (w : string) : string := "'" ++ w ++ "' is not part of model vocab!".

(** The inner loop of [create_unk_sen_mask] over the words of one
    sentence; the state is the mask and the warnings issued so far. *)
Definition mask_sentence (corpus : Corpus) (idx : nat)
    (st : list bool * list string) (ws : list string) : list bool * list string :=
  foldl (λ st w,
           if negb (stoi_contains corpus w)
           then (<[idx := false]> st.1, (st.2 ++ [warn_msg w])%list)
           else st)
        st ws.

(** [create_unk_sen_mask]: the mask, and the warnings in the order they
    are issued. *)
Definition create_unk_sen_mask (corpus : Corpus) (ignore_unk : bool)
    : list bool * list string :=
  let mask := replicate (length (examples corpus)) true in
  if negb ignore_unk then (mask, [])
  else foldl (λ st ie, mask_sentence corpus ie.1 st (sen ie.2))
             (mask, []) (imap pair (examples corpus)).

Definition single_context_accuracy (self : LanguageModel)
    (activations : tensor R) (token_ids counter_token_ids : itensor) : result pyfloat :=
  activations ← unsqueeze 2 activations;
  w ← index (decoder_w self) token_ids;
  decoder_w' ← unsqueeze 1 w;
  decoder_b' ← index (decoder_b self) token_ids;
  cw ← index (decoder_w self) counter_token_ids;
  counter_decoder_w ← unsqueeze 1 cw;
  counter_decoder_b ← index (decoder_b self) counter_token_ids;
  l ← bmm decoder_w' activations;
  logits ← add_ (squeeze l) decoder_b';
  cl ← bmm counter_decoder_w activations;
  counter_logits ← add_ (squeeze cl) counter_decoder_b;
  correct ← ge logits counter_logits;
  Ok (mean (to_float correct)).

(** [logits.shape[0]] *)
Definition shape0 {T : Type} (t : tensor T) : result nat :=
  match shape t with
  | [] => Err IndexError
  | d :: _ => Ok d
  end.

Definition dual_context_accuracy (self : LanguageModel)
    (activations counter_activations : tensor R) (token_ids : itensor)
    (use_full_model_probs : bool) : result pyfloat :=
  if use_full_model_probs then
    wt ← t_ (decoder_w self);
    m ← matmul activations wt;
    logits ← add m (decoder_b self);
    cwt ← t_ (decoder_w self);
    cm ← matmul counter_activations cwt;
    counter_logits ← add cm (decoder_b self);
    probs ← log_softmax_dim1 logits;
    counter_probs ← log_softmax_dim1 counter_logits;
    batch_size ← shape0 logits;
    probs ← index_pairs probs (seq 0 batch_size) token_ids;
    counter_probs ← index_pairs counter_probs (seq 0 batch_size) token_ids;
    correct ← ge probs counter_probs;
    Ok (mean (to_float correct))
  else
    w ← index (decoder_w self) token_ids;
    decoder_w' ← unsqueeze 1 w;
    a ← unsqueeze 2 activations;
    logits ← bmm decoder_w' a;
    ca ← unsqueeze 2 counter_activations;
    counter_logits ← bmm decoder_w' ca;
    correct ← ge logits counter_logits;
    Ok (mean (to_float correct)).

(** [calc_accuracy]: the warnings issued, and the accuracy or the
    exception raised. *)
Definition calc_accuracy (self : LanguageModel) (corpus : Corpus)
    (activations : tensor R) (counter_activations : option (tensor R))
    (use_full_model_probs ignore_unk : bool) : list string * result pyfloat :=
  let mw := create_unk_sen_mask corpus ignore_unk in
  let mask := mw.1 in
  (mw.2,
   activations ← mask_select activations mask;
   ids ← comprehension (λ ex, stoi_getitem corpus (token ex)) (examples corpus);
   token_ids ← imask_select (torch_tensor ids) mask;
   match counter_activations with
   | None =>
       cids ← comprehension (λ ex, stoi_getitem corpus (counter_token ex)) (examples corpus);
       counter_token_ids ← imask_select (torch_tensor cids) mask;
       single_context_accuracy self activations token_ids counter_token_ids
   | Some counter_activations =>
       counter_activations ← mask_select counter_activations mask;
       dual_context_accuracy self activations counter_activations token_ids
         use_full_model_probs
   end).

End Task.

(** ** diagnnose/downstream/warstadt/downstream.py *)

Module Warstadt.
Import Task.

(** [t[:, :, 0]] on a 3-D tensor. *)
Definition select_last0 {T : Type} (t : tensor T) : result (tensor T) :=
  match shape t with
  | [b; n; p] =>
      if (0 <? p)%nat
      then Ok (mkTensor [b; n] (concat (map (take 1) (rows_of (b * n) p (data t)))))
      else Err IndexError
  | _ => Err IndexError
  end.

(** The scoring block of the loop body of [warstadt_downstream], from the
    two [torch.bmm] calls to the accuracy of the batch.  [classes] (shape
    [(n, 1)]) and the two matrices of final hidden states are taken after
    the unk mask has been applied. *)
Definition warstadt_accuracy (model : LanguageModel) (classes : itensor)
    (final_hidden wfinal_hidden : tensor R) (add_dec_bias : bool) : result pyfloat :=
  w ← index (decoder_w model) classes;
  fh ← unsqueeze 2 final_hidden;
  probs ← bmm w fh;
  probs ← select_last0 probs;
  w' ← index (decoder_w model) classes;
  wfh ← unsqueeze 2 wfinal_hidden;
  wprobs ← bmm w' wfh;
  wprobs ← select_last0 wprobs;
  scores ←
    (if add_dec_bias then
       b ← index (decoder_b model) classes;
       probs ← add_ probs b;
       b' ← index (decoder_b model) classes;
       wprobs ← add_ wprobs b';
       Ok (probs, wprobs)
     else Ok (probs, wprobs));
  correct ← gt scores.1 scores.2;
  Ok (mean (to_float correct)).

End Warstadt.

(** ** Specification vocabulary for the selection predicates *)

Module SelectionSpec.

(** Modelled from the spec: the extraction loop is not among the files at
    hand.  Following the spec it evaluates the predicate at every position
    [0 .. len(sen) - 1] of a sentence, in increasing order, and records a
    row for the positions where it holds. *)
Definition selected_positions (f : Z → Example → bool) (item : Example) : list Z :=
  filter (λ w_idx, f w_idx item = true) (Z.of_nat <$> seq 0 (length (sen item))).

End SelectionSpec.

(** ** Specification vocabulary for the initial states *)

Module InitStatesSpec.
Import InitStates.

(** The shape [create_zero_init_states] gives a state of size [H]. *)
Definition zero_shape (self : InitStates) (H : nat) : list nat :=
  match batch_size self with
  | Some B => [B; H]
  | None => [H]
  end.

(** [x] is a zero-filled array of the configured backend whose shape is
    [(B, H)] with a batch size [B], and [(H,)] without one. *)
Definition is_zero_state (self : InitStates) (H : nat) (x : array) : Prop :=
  shape (arr x) = zero_shape self H
  ∧ length (data (arr x)) = numel (zero_shape self H)
  ∧ Forall (λ v, v = 0%R) (data (arr x))
  ∧ array_type x = (if use_np_arrays self then Numpy else Pytorch).

Definition zero_layer (self : InitStates) (sz : layer_size) : gmap string array :=
  {[ "cx" := _create_zero_state self (c sz); "hx" := _create_zero_state self (h sz) ]}.

(** Layer [l] of the bundle passes the checks of [_validate]. *)
Definition layer_ok (self : InitStates) (init_states : gmap nat (gmap string array))
    (l : nat) : Prop :=
  ∃ d hx cx sz,
    init_states !! l = Some d ∧ d !! "hx" = Some hx ∧ d !! "cx" = Some cx
    ∧ sizes_getitem self l = Ok sz
    ∧ len hx = Ok (h sz) ∧ len cx = Ok (c sz).

(** Layer [l] of the bundle makes [_validate] raise [e]. *)
Inductive layer_fails (self : InitStates) (init_states : gmap nat (gmap string array))
    (l : nat) : error → Prop :=
| fails_no_layer :
    init_states !! l = None → layer_fails self init_states l (LayerKeyError l)
| fails_names d :
    init_states !! l = Some d → d !! "hx" = None ∨ d !! "cx" = None →
    layer_fails self init_states l (AssertionError names_msg)
| fails_hx_len d hx n sz :
    init_states !! l = Some d → d !! "hx" = Some hx → is_Some (d !! "cx") →
    len hx = Ok n → sizes_getitem self l = Ok sz → n ≠ h sz →
    layer_fails self init_states l (AssertionError (size_msg "hx" n (h sz)))
| fails_cx_len d hx cx n sz :
    init_states !! l = Some d → d !! "hx" = Some hx → d !! "cx" = Some cx →
    len hx = Ok (h sz) → len cx = Ok n → sizes_getitem self l = Ok sz → n ≠ c sz →
    layer_fails self init_states l (AssertionError (size_msg "cx" n (c sz)))
| fails_scalar d x :
    init_states !! l = Some d →
    (d !! "hx" = Some x ∨ d !! "cx" = Some x) → is_Some (d !! "hx") → is_Some (d !! "cx") →
    len x = Err TypeError →
    layer_fails self init_states l TypeError.

(** Sample inputs: a two-layer torch model with batch size 5; a two-layer
    model with [h = c = 3] in both layers and no batch size; bundles of
    1-D torch vectors. *)
Definition two_layers : InitStates :=
  mkInitStates [(0, mkLayerSize 2 3); (1, mkLayerSize 4 4)] 2 (Some 5) false.

Definition model33 : InitStates :=
  mkInitStates [(0, mkLayerSize 3 3); (1, mkLayerSize 3 3)] 2 None false.

Definition vec (n : nat) : array := zeros Pytorch [n].

Definition layer_entry (n_hx n_cx : nat) : gmap string array :=
  {[ "hx" := vec n_hx; "cx" := vec n_cx ]}.

(** Wrong [hx] length in layer 0 only, and in layer 1 only. *)
Definition bundle_bad0 : gmap nat (gmap string array) :=
  {[ 0 := layer_entry 5 3; 1 := layer_entry 3 3 ]}.
Definition bundle_bad1 : gmap nat (gmap string array) :=
  {[ 0 := layer_entry 3 3; 1 := layer_entry 5 3 ]}.

(** A well-formed bundle, one with a single layer, and one with the right
    number of layers under the keys 0 and 7. *)
Definition bundle_good : gmap nat (gmap string array) :=
  {[ 0 := layer_entry 3 3; 1 := layer_entry 3 3 ]}.
Definition bundle_one_layer : gmap nat (gmap string array) :=
  {[ 0 := layer_entry 3 3 ]}.
Definition bundle_keys_0_7 : gmap nat (gmap string array) :=
  {[ 0 := layer_entry 3 3; 7 := layer_entry 3 3 ]}.

End InitStatesSpec.

(** ** Specification vocabulary for the accuracy tasks *)

Module TaskSpec.
Import Task.

(** The unk mask in the words of the spec: a sentence is retained iff
    [ignore_unk] is false or every token of its primary token sequence is
    in the vocabulary. *)
Definition unk_mask (corpus : Corpus) (ignore_unk : bool) : list bool :=
  map (λ ex, negb ignore_unk || forallb (stoi_contains corpus) (sen ex)) (examples corpus).

(** One warning per out-of-vocabulary token occurrence, in corpus order;
    none when [ignore_unk] is false. *)
Definition missing_tokens (corpus : Corpus) (ex : Example) : list string :=
  filter (λ w, stoi_contains corpus w = false) (sen ex).

Definition unk_warnings (corpus : Corpus) (ignore_unk : bool) : list string :=
  if ignore_unk
  then concat (map (λ ex, map warn_msg (missing_tokens corpus ex)) (examples corpus))
  else [].

(** Well-formed inputs: [rows] is an [n x m] matrix. *)
Definition matrix (n m : nat) (rows : list (list R)) : Prop :=
  length rows = n ∧ Forall (λ r, length r = m) rows.

(** Row [t] of the decoder weights and entry [t] of the decoder bias. *)
Definition weight (W : list (list R)) (t : nat) : list R := nth t W [].
Definition bias_at (b : list R) (t : nat) : R := nth t b 0%R.

(** [logit(t) = a . weight[t] + bias[t]] *)
Definition logit (W : list (list R)) (b : list R) (a : list R) (t : nat) : R :=
  (dot a (weight W t) + bias_at b t)%R.

(** The log-probability of token [t] under the softmax over the whole
    vocabulary. *)
Definition log_prob (W : list (list R)) (b : list R) (a : list R) (t : nat) : R :=
  (logit W b a t - logsumexp (map (logit W b a) (seq 0 (length W))))%R.

(** The mean of a list of 0/1 indicators; undefined ([NaN]) on the empty
    list. *)
Definition mean_indicator (l : list bool) : pyfloat :=
  match l with
  | [] => NaN
  | _ => Fin (Rsum (map bool_to_R l) / INR (length l))
  end.

(** Per-sentence indicators, in the words of the spec. *)
Definition single_indicators (W : list (list R)) (b : list R)
    (A : list (list R)) (ids cids : list nat) : list bool :=
  zip_with (λ a tt, Rgeb (logit W b a tt.1) (logit W b a tt.2)) A (zip ids cids).

Definition restricted_indicators (W : list (list R))
    (A B : list (list R)) (ids : list nat) : list bool :=
  zip_with (λ ab t, Rgeb (dot ab.1 (weight W t)) (dot ab.2 (weight W t))) (zip A B) ids.

Definition full_indicators (W : list (list R)) (b : list R)
    (A B : list (list R)) (ids : list nat) : list bool :=
  zip_with (λ ab t, Rgeb (log_prob W b ab.1 t) (log_prob W b ab.2 t)) (zip A B) ids.

(** The score [warstadt_downstream] compares, and its strict indicators. *)
Definition warstadt_score (add_dec_bias : bool) (W : list (list R)) (b : list R)
    (a : list R) (t : nat) : R :=
  if add_dec_bias then logit W b a t else dot a (weight W t).

Definition warstadt_indicators (add_dec_bias : bool) (W : list (list R)) (b : list R)
    (A B : list (list R)) (ids : list nat) : list bool :=
  zip_with (λ ab t, Rgtb (warstadt_score add_dec_bias W b ab.1 t)
                         (warstadt_score add_dec_bias W b ab.2 t)) (zip A B) ids.

(** The number of sentences a mask retains. *)
Definition retained (mask : list bool) : nat := length (filter (λ x, x = true) mask).

(** Every value of a string field of the corpus is in the vocabulary,
    with an id below the vocabulary size [V] of the decoder. *)
Definition field_known (V : nat) (corpus : Corpus) (field : Example → string) : Prop :=
  Forall (λ ex, ∃ i, stoi corpus !! field ex = Some i ∧ i < V) (examples corpus).

(** An int64 index vector. *)
Definition long (ids : list nat) : itensor := mkITensor Int64 [length ids] ids.

(** Sample inputs: the vocabulary [{a: 0, b: 1}], a decoder with one
    hidden unit. *)
Definition vocab_ab : gmap string nat := {[ "a" := 0; "b" := 1 ]}.

Definition model_ab : LanguageModel :=
  mkLanguageModel (of_rows 1 [[1%R]; [2%R]]) (of_list [0%R; 0%R]).

(** A decoder with an all-zero bias whose first weight row is zero. *)
Definition model_tie : LanguageModel :=
  mkLanguageModel (of_rows 1 [[0%R]; [1%R]]) (of_list [0%R; 0%R]).

(** One sentence, all of whose words are known, with an unknown target. *)
Definition corpus_unknown_target : Corpus :=
  mkCorpus [mkExample ["a"] [] "zzz" "b" 0] vocab_ab.

(** One sentence whose only word is its unknown target. *)
Definition corpus_unknown_word_and_target : Corpus :=
  mkCorpus [mkExample ["zzz"] [] "zzz" "b" 0] vocab_ab.

(** One sentence with an unknown word, its target and counter target known. *)
Definition corpus_all_excluded : Corpus :=
  mkCorpus [mkExample ["zzz"] ["zzz"] "a" "b" 0] vocab_ab.

(** One sentence over the vocabulary. *)
Definition corpus_one : Corpus :=
  mkCorpus [mkExample ["a"; "b"] ["b"] "a" "b" 0] vocab_ab.

(** Two sentences over the vocabulary. *)
Definition corpus_two : Corpus :=
  mkCorpus [mkExample ["a"; "b"] ["b"] "a" "b" 0; mkExample ["b"] ["a"; "a"] "b" "a" 1]
           vocab_ab.

End TaskSpec.

Open Scope nat_scope.
Open Scope list_scope.

(** ** Selection predicates *)

Module SelectionFacts.
Import SelectionFuncs SelectionSpec.

Lemma final_token_spec (p : Z) (item : Example) :
  final_token p item = true ↔ p = (Z.of_nat (length (sen item)) - 1)%Z.
Proof. unfold final_token. rewrite Z.eqb_eq. lia. Qed.

Lemma filter_none_below (L n : nat) :
  n < L →
  filter (λ w_idx : Z, (Z.of_nat L =? w_idx + 1)%Z = true) (Z.of_nat <$> seq 0 n) = [].
Proof.
  intros Hn. induction n as [|n IH].
  - reflexivity.
  - rewrite seq_S, fmap_app, filter_app, IH by lia.
    change (Z.of_nat <$> [0 + n]) with [Z.of_nat n]. rewrite app_nil_l.
    rewrite filter_cons_False, filter_nil; [done|].
    lazy beta. intros Heq%Z.eqb_eq. lia.
Qed.

Lemma filter_last (n : nat) :
  filter (λ w_idx : Z, (Z.of_nat (S n) =? w_idx + 1)%Z = true) (Z.of_nat <$> seq 0 (S n))
  = [Z.of_nat n].
Proof.
  rewrite seq_S, fmap_app, filter_app, filter_none_below by lia.
  change (Z.of_nat <$> [0 + n]) with [Z.of_nat n]. rewrite app_nil_l.
  rewrite filter_cons_True, filter_nil; [done|].
  lazy beta. apply Z.eqb_eq. lia.
Qed.

(** C9. [final_token] holds at position [p] of a sentence of length [L]
    exactly when [p = L - 1]; hence among the positions [0 .. L-1] of a
    non-empty sentence it selects the single position [L - 1], and it
    selects nothing in an empty sentence. *)
Theorem final_token_selects_exactly_last (item : Example) :
  (∀ p : Z, final_token p item = true ↔ p = (Z.of_nat (length (sen item)) - 1)%Z)
  ∧ selected_positions final_token item =
      match sen item with
      | [] => []
      | _ :: _ => [(Z.of_nat (length (sen item)) - 1)%Z]
      end
  ∧ length (selected_positions final_token item) ≤ 1.
Proof.
  split; [intros p; apply final_token_spec|].
  assert (Hsel : selected_positions final_token item =
      match sen item with
      | [] => []
      | _ :: _ => [(Z.of_nat (length (sen item)) - 1)%Z]
      end).
  { unfold selected_positions, final_token.
    destruct (sen item) as [|w ws] eqn:Hs; [reflexivity|].
    change (length (w :: ws)) with (S (length ws)).
    rewrite filter_last. f_equal. lia. }
  split; [exact Hsel|].
  rewrite Hsel. destruct (sen item); simpl; lia.
Qed.

End SelectionFacts.

(** ** Facts about the result monad *)

Module PyFacts.

Lemma bind_Ok {A B : Type} (m : result A) (f : A → result B) (b : B) :
  m ≫= f = Ok b ↔ ∃ a, m = Ok a ∧ f a = Ok b.
Proof.
  destruct m as [a|e]; simpl.
  - split; [eauto|]. intros (a' & [= <-] & ?). done.
  - split; [done|]. intros (a' & [=] & ?).
Qed.

Lemma ret_bind {A B : Type} (a : A) (f : A → result B) : Ok a ≫= f = f a.
Proof. reflexivity. Qed.

(** Reduce [x ← Ok a; k x] to [k a]. *)
Ltac ok_step := rewrite ret_bind; cbv beta.

Lemma comprehension_cons {A B : Type} (f : A → result B) (x : A) (l : list A) :
  comprehension f (x :: l) = (y ← f x; ys ← comprehension f l; Ok (y :: ys)).
Proof. reflexivity. Qed.

Lemma comprehension_Ok {A B : Type} (f : A → result B) (g : A → B) (l : list A) :
  (∀ x, x ∈ l → f x = Ok (g x)) → comprehension f l = Ok (g <$> l).
Proof.
  induction l as [|x l IH]; intros Hf; simpl; [done|].
  rewrite Hf by left. simpl. rewrite IH; [done|].
  intros y Hy. apply Hf. by right.
Qed.

Lemma comprehension_length {A B : Type} (f : A → result B) (l : list A) (r : list B) :
  comprehension f l = Ok r → length r = length l.
Proof.
  revert r. induction l as [|x l IH]; intros r; simpl.
  - by intros [= <-].
  - destruct (f x) as [y|e]; simpl; [|done].
    destruct (comprehension f l) as [ys|e]; simpl; [|done].
    intros [= <-]. simpl. f_equal. by apply IH.
Qed.

Lemma for_each_Ok {A : Type} (body : A → result unit) (l : list A) :
  for_each body l = Ok tt ↔ ∀ x, x ∈ l → body x = Ok tt.
Proof.
  induction l as [|x l IH]; simpl.
  - split; [|done]. intros _ x Hx. by apply elem_of_nil in Hx.
  - destruct (body x) as [[]|e] eqn:Hb; simpl.
    + rewrite IH. split.
      * intros Hl y [->|Hy]%elem_of_cons; auto.
      * intros Hl y Hy. apply Hl. by right.
    + split; [done|]. intros Hl. specialize (Hl x (list_elem_of_here _ _)). congruence.
Qed.

End PyFacts.

(** ** Initial states *)

Module InitStatesFacts.
Import InitStates InitStatesSpec PyFacts.

Lemma _create_zero_state_spec (self : InitStates) (H : nat) :
  is_zero_state self H (_create_zero_state self H).
Proof.
  unfold is_zero_state, _create_zero_state, zero_shape.
  destruct (batch_size self) as [B|], (use_np_arrays self); simpl;
    rewrite length_replicate; repeat split; auto using Forall_replicate.
Qed.

Lemma zero_items (self : InitStates) (ls : list nat) :
  (∀ l, l ∈ ls → ∃ sz, sizes_getitem self l = Ok sz) →
  ∃ items,
    comprehension
      (λ l, sz_c ← sizes_getitem self l;
            sz_h ← sizes_getitem self l;
            Ok (l, ({[ "cx" := _create_zero_state self (c sz_c);
                       "hx" := _create_zero_state self (h sz_h) ]} : gmap string array)))
      ls = Ok items
    ∧ (∀ l sz, l ∈ ls → sizes_getitem self l = Ok sz →
         (list_to_map items : gmap nat (gmap string array)) !! l = Some (zero_layer self sz))
    ∧ (∀ l, l ∉ ls → (list_to_map items : gmap nat (gmap string array)) !! l = None).
Proof.
  induction ls as [|k ls IH]; intros Hs.
  - exists []. split; [done|]. split.
    + intros l sz Hl. by apply elem_of_nil in Hl.
    + intros l _. apply lookup_empty.
  - destruct IH as (items & Hc & Hin & Hout).
    { intros l Hl. apply Hs. by right. }
    destruct (Hs k (list_elem_of_here _ _)) as [szk Hk].
    exists ((k, zero_layer self szk) :: items). split.
    + simpl. rewrite Hk. simpl. rewrite Hc. done.
    + split.
      * intros l sz Hl Hsz. simpl. destruct (decide (k = l)) as [->|Hne].
        -- rewrite lookup_insert_eq. congruence.
        -- rewrite lookup_insert_ne by done. apply Hin; [|done].
           apply elem_of_cons in Hl as [->|]; done.
      * intros l Hl. simpl. apply not_elem_of_cons in Hl as [Hne Hl].
        rewrite lookup_insert_ne by done. by apply Hout.
Qed.

(** C8. When the size spec has an entry for every layer below
    [num_layers], [create_zero_init_states] returns a bundle whose keys are
    exactly the layers [0 .. num_layers-1]; in every layer both ['hx'] and
    ['cx'] are zero-filled arrays of the sizes the spec gives ([h] and
    [c]), of shape [(B, H)] when a batch size [B] is configured and of
    shape [(H,)] when none is. *)
Theorem create_zero_init_states_shapes (self : InitStates) :
  (∀ l, l < num_layers self → ∃ sz, sizes_getitem self l = Ok sz) →
  ∃ st,
    create_zero_init_states self = Ok st
    ∧ (∀ l sz, l < num_layers self → sizes_getitem self l = Ok sz →
         ∃ d hx cx,
           st !! l = Some d ∧ d !! "hx" = Some hx ∧ d !! "cx" = Some cx
           ∧ is_zero_state self (h sz) hx ∧ is_zero_state self (c sz) cx
           ∧ shape (arr hx) = match batch_size self with
                              | Some B => [B; h sz]
                              | None => [h sz]
                              end
           ∧ shape (arr cx) = match batch_size self with
                              | Some B => [B; c sz]
                              | None => [c sz]
                              end)
    ∧ (∀ l, num_layers self ≤ l → st !! l = None).
Proof.
  intros Hs.
  destruct (zero_items self (seq 0 (num_layers self))) as (items & Hc & Hin & Hout).
  { intros l Hl%elem_of_seq. apply Hs. lia. }
  exists (list_to_map items). split.
  { unfold create_zero_init_states. rewrite Hc. done. }
  split.
  - intros l sz Hl Hsz.
    exists (zero_layer self sz), (_create_zero_state self (h sz)),
      (_create_zero_state self (c sz)).
    split; [apply Hin; [apply elem_of_seq; lia|done]|].
    split; [done|]. split; [done|].
    pose proof (_create_zero_state_spec self (h sz)) as Hh.
    pose proof (_create_zero_state_spec self (c sz)) as Hcx.
    repeat split; try apply Hh; try apply Hcx.
  - intros l Hl. apply Hout. rewrite elem_of_seq. lia.
Qed.

Lemma create_zero_init_states_shapes_witness :
  ∃ st,
    create_zero_init_states two_layers = Ok st
    ∧ (∀ l sz, l < 2 → sizes_getitem two_layers l = Ok sz →
         ∃ d hx cx,
           st !! l = Some d ∧ d !! "hx" = Some hx ∧ d !! "cx" = Some cx
           ∧ is_zero_state two_layers (h sz) hx ∧ is_zero_state two_layers (c sz) cx
           ∧ shape (arr hx) = [5; h sz]
           ∧ shape (arr cx) = [5; c sz])
    ∧ (∀ l, 2 ≤ l → st !! l = None).
Proof.
  apply (create_zero_init_states_shapes two_layers).
  intros l Hl. simpl in Hl.
  destruct l as [|[|l]]; [by eexists|by eexists|lia].
Defined.


Section Validate.
Variable self : InitStates.
Variable init_states : gmap nat (gmap string array).

Lemma sizes_getitem_items (item : nat * layer_size) :
  item ∈ sizes self → ∃ sz, sizes_getitem self item.1 = Ok sz.
Proof.
  intros Hin. unfold sizes_getitem.
  destruct (list_find _ (sizes self)) as [[i kv]|] eqn:Hf; [by eexists|].
  apply list_find_None in Hf. rewrite Forall_forall in Hf.
  by destruct (Hf item Hin).
Qed.

Lemma len_cases (x : array) : (∃ n, len x = Ok n) ∨ len x = Err TypeError.
Proof. unfold len. destruct (shape (arr x)); eauto. Qed.

Lemma validate_layer_spec (item : nat * layer_size) (sz : layer_size) :
  sizes_getitem self item.1 = Ok sz →
  match validate_layer self init_states item with
  | Ok _ => layer_ok self init_states item.1
  | Err e => layer_fails self init_states item.1 e
  end.
Proof.
  intros Hsz. unfold validate_layer, layer_getitem.
  destruct (init_states !! item.1) as [d|] eqn:Hd; simpl; [|by constructor].
  unfold has_key, name_getitem.
  destruct (d !! "hx") as [hx|] eqn:Hhx; simpl;
    [|apply (fails_names _ _ _ d); auto].
  destruct (d !! "cx") as [cx|] eqn:Hcx; simpl;
    [|apply (fails_names _ _ _ d); auto].
  rewrite ?bool_decide_eq_true_2 by eauto. simpl.
  destruct (len_cases hx) as [[n Hn]|Hn]; rewrite Hn; simpl;
    [|apply (fails_scalar _ _ _ d hx); eauto].
  rewrite Hsz. simpl.
  destruct (Nat.eqb_spec n (h sz)) as [->|Hne]; simpl;
    [|apply (fails_hx_len _ _ _ d hx n sz); eauto].
  destruct (len_cases cx) as [[m Hm]|Hm]; rewrite Hm; simpl;
    [|apply (fails_scalar _ _ _ d cx); eauto].
  destruct (Nat.eqb_spec m (c sz)) as [->|Hne]; simpl.
  - exists d, hx, cx, sz. eauto 10.
  - apply (fails_cx_len _ _ _ d hx cx m sz); eauto.
Qed.

Lemma layer_ok_not_fails (l : nat) (e : error) : layer_ok self init_states l → ¬ layer_fails self init_states l e.
Proof.
  intros (d & hx & cx & sz & Hd & Hhx & Hcx & Hsz & Lh & Lc) Hf.
  destruct Hf as [Hn|d' Hd' [Hn|Hn]|d' hx' n sz' Hd' Hhx' _ Hl Hsz' Hne
                 |d' hx' cx' n sz' Hd' Hhx' Hcx' _ Hl Hsz' Hne|d' x Hd' [Hx|Hx] _ _ Hl];
    simplify_eq; congruence.
Qed.

Lemma for_each_validate_spec (items : list (nat * layer_size)) :
  (∀ item, item ∈ items → item ∈ sizes self) →
  match for_each (validate_layer self init_states) items with
  | Ok _ => ∀ item, item ∈ items → layer_ok self init_states item.1
  | Err e => ∃ item, item ∈ items ∧ layer_fails self init_states item.1 e
  end.
Proof.
  induction items as [|item items IH]; intros Hsub; simpl.
  - intros item Hin. by apply elem_of_nil in Hin.
  - destruct (sizes_getitem_items item) as [sz Hsz]; [apply Hsub; left|].
    pose proof (validate_layer_spec item sz Hsz) as Hl.
    destruct (validate_layer self init_states item) as [[]|e]; simpl.
    + specialize (IH (λ i Hi, Hsub i (list_elem_of_further _ _ _ Hi))).
      destruct (for_each _ items) as [[]|e].
      * intros i [->|Hi]%elem_of_cons; auto.
      * destruct IH as (i & Hi & Hf). exists i. split; [by right|done].
    + exists item. split; [left|done].
Qed.

(** What [_validate] does, case by case. *)
Lemma validate_cases :
  match _validate self init_states with
  | Ok _ =>
      size init_states = num_layers self
      ∧ ∀ item, item ∈ sizes self → layer_ok self init_states item.1
  | Err e =>
      (size init_states ≠ num_layers self ∧ e = AssertionError count_msg)
      ∨ (size init_states = num_layers self
         ∧ ∃ item, item ∈ sizes self ∧ layer_fails self init_states item.1 e)
  end.
Proof.
  unfold _validate.
  destruct (Nat.eqb_spec (size init_states) (num_layers self)) as [Heq|Hne]; simpl.
  - pose proof (for_each_validate_spec (sizes self) (λ _ H, H)) as Hl.
    destruct (for_each _ (sizes self)) as [[]|e]; auto.
  - left. done.
Qed.

End Validate.


(** C3 (as amended). [_validate] succeeds exactly when the bundle has
    [num_layers] entries and, for every layer of the size spec, an entry
    with both ['hx'] and ['cx'] whose lengths are the [h] and [c] of the
    spec.  Otherwise it raises: the fixed message [count_msg] on a wrong
    number of entries; else, at a layer of the size spec, a key error when
    the bundle has no entry for that layer, the fixed message [names_msg]
    when ['hx'] or ['cx'] is missing, or a message naming the field, its
    actual and its expected length ([size_msg]) on a wrong length.  No
    message names the layer. *)
Theorem validate_failure_cases
    (self : InitStates) (init_states : gmap nat (gmap string array)) :
  match _validate self init_states with
  | Ok _ =>
      size init_states = num_layers self
      ∧ ∀ item, item ∈ sizes self → layer_ok self init_states item.1
  | Err e =>
      (size init_states ≠ num_layers self ∧ e = AssertionError count_msg)
      ∨ (size init_states = num_layers self
         ∧ ∃ item, item ∈ sizes self
             ∧ layer_fails self init_states item.1 e
             ∧ ¬ layer_ok self init_states item.1)
  end.
Proof.
  pose proof (validate_cases self init_states) as Hc.
  destruct (_validate self init_states) as [[]|e]; [done|].
  destruct Hc as [?|(Hsz & item & Hin & Hf)]; [by left|right].
  split; [done|]. exists item. split; [done|]. split; [done|].
  intros Hok. by apply (layer_ok_not_fails self init_states item.1 e).
Qed.

(** C3 fails as stated.  Two bundles whose only wrong vector sits in
    layer 0 and in layer 1 raise the very same message, so the message
    does not identify the layer; a wrong number of layers raises a fixed
    text with neither the expected nor the actual count; and a bundle
    with the right number of entries under the keys 0 and 7 (every entry
    complete and of the right lengths) fails with a key error. *)
Lemma validate_message_counterexample :
  _validate model33 bundle_bad0
    = Err (AssertionError "Initial activation size for hx is incorrect: hx: 5, should be 3")
  ∧ _validate model33 bundle_bad1
    = Err (AssertionError "Initial activation size for hx is incorrect: hx: 5, should be 3")
  ∧ (¬ ∃ offending_layer : result unit → nat,
         offending_layer (_validate model33 bundle_bad0) = 0
         ∧ offending_layer (_validate model33 bundle_bad1) = 1)
  ∧ _validate model33 bundle_one_layer
    = Err (AssertionError "Number of initial layers not correct")
  ∧ _validate model33 ∅ = Err (AssertionError "Number of initial layers not correct")
  ∧ _validate model33 bundle_keys_0_7 = Err (LayerKeyError 1).
Proof.
  assert (H0 : _validate model33 bundle_bad0
    = Err (AssertionError "Initial activation size for hx is incorrect: hx: 5, should be 3"))
    by (vm_compute; reflexivity).
  assert (H1 : _validate model33 bundle_bad1
    = Err (AssertionError "Initial activation size for hx is incorrect: hx: 5, should be 3"))
    by (vm_compute; reflexivity).
  repeat split; try (vm_compute; reflexivity); try done.
  intros (f & Hf0 & Hf1). rewrite H0 in Hf0. rewrite H1 in Hf1. congruence.
Qed.

End InitStatesFacts.

(** ** The unk mask *)

Module MaskFacts.
Import Task TaskSpec PyFacts.

Lemma mask_sentence_spec (corpus : Corpus) (idx : nat) (ws : list string)
    (st : list bool * list string) :
  mask_sentence corpus idx st ws =
    (if forallb (stoi_contains corpus) ws then st.1 else <[idx := false]> st.1,
     st.2 ++ map warn_msg (filter (λ w, stoi_contains corpus w = false) ws)).
Proof.
  unfold mask_sentence. revert st.
  induction ws as [|w ws IH]; intros [mask warns]; simpl.
  - by rewrite app_nil_r.
  - rewrite IH. destruct (stoi_contains corpus w) eqn:Hw; simpl.
    + rewrite filter_cons_False by (rewrite Hw; done). done.
    + rewrite filter_cons_True by done. simpl.
      rewrite list_insert_insert_eq, <- app_assoc. simpl.
      by destruct (forallb _ ws).
Qed.

Lemma mask_loop_spec (corpus : Corpus) (exs : list Example) (pre : list bool)
    (warns : list string) :
  foldl (λ st ie, mask_sentence corpus ie.1 st (sen ie.2))
        (pre ++ replicate (length exs) true, warns)
        (imap (λ i, pair (length pre + i)) exs)
  = (pre ++ map (λ ex, forallb (stoi_contains corpus) (sen ex)) exs,
     warns ++ concat (map (λ ex, map warn_msg (missing_tokens corpus ex)) exs)).
Proof.
  revert pre warns. induction exs as [|ex exs IH]; intros pre warns.
  - simpl. by rewrite !app_nil_r.
  - rewrite imap_cons. simpl foldl. rewrite mask_sentence_spec. simpl fst. simpl snd.
    set (b := forallb (stoi_contains corpus) (sen ex)).
    assert (Hm : (if b then pre ++ true :: replicate (length exs) true
                  else <[length pre + 0 := false]> (pre ++ true :: replicate (length exs) true))
                 = (pre ++ [b]) ++ replicate (length exs) true).
    { rewrite <- app_assoc. simpl. destruct b; [done|].
      rewrite Nat.add_0_r, insert_app_r_alt, Nat.sub_diag by lia. done. }
    rewrite Hm.
    rewrite (imap_ext _ (λ i, pair (length (pre ++ [b]) + i))); last first.
    { intros i x _. simpl. rewrite length_app. simpl. f_equal. lia. }
    rewrite IH. simpl. rewrite <- !app_assoc. done.
Qed.

Lemma create_unk_sen_mask_spec (corpus : Corpus) (ignore_unk : bool) :
  create_unk_sen_mask corpus ignore_unk
  = (unk_mask corpus ignore_unk, unk_warnings corpus ignore_unk).
Proof.
  unfold create_unk_sen_mask, unk_mask, unk_warnings.
  destruct ignore_unk; simpl.
  - apply (mask_loop_spec corpus (examples corpus) [] []).
  - f_equal. induction (examples corpus); simpl; congruence.
Qed.

Lemma elem_of_concat {A : Type} (x : A) (ls : list (list A)) :
  x ∈ concat ls ↔ ∃ l, x ∈ l ∧ l ∈ ls.
Proof.
  induction ls as [|l ls IH]; simpl.
  - split; [by intros ?%elem_of_nil|]. by intros (l & _ & ?%elem_of_nil).
  - rewrite elem_of_app, IH. split.
    + intros [Hx|(l' & Hx & Hl')]; [exists l; split; [done|left]|].
      exists l'. split; [done|by right].
    + intros (l' & Hx & [->|Hl']%elem_of_cons); [by left|right; eauto].
Qed.

Lemma stoi_contains_spec (corpus : Corpus) (w : string) :
  stoi_contains corpus w = true ↔ is_Some (stoi corpus !! w).
Proof. unfold stoi_contains. apply bool_decide_eq_true. Qed.

(** C6. The mask [create_unk_sen_mask] builds retains sentence [i]
    exactly when [ignore_unk] is false or every token of its [sen] is in
    the vocabulary; with [ignore_unk] set, one warning naming the token is
    issued for every out-of-vocabulary token of every sentence, and none
    otherwise; and [calc_accuracy] issues these warnings and selects with
    this one mask the rows of the activations, of the counter activations
    when they are given, the target ids and the counter-target ids. *)
Theorem unk_mask_built_and_applied (self : LanguageModel) (corpus : Corpus)
    (activations : tensor R) (counter_activations : option (tensor R))
    (use_full_model_probs ignore_unk : bool) :
  create_unk_sen_mask corpus ignore_unk
    = (unk_mask corpus ignore_unk, unk_warnings corpus ignore_unk)
  ∧ length (unk_mask corpus ignore_unk) = length (examples corpus)
  ∧ (∀ i ex, examples corpus !! i = Some ex →
       ∃ b, unk_mask corpus ignore_unk !! i = Some b
            ∧ (b = true ↔
               ignore_unk = false ∨ Forall (λ w, is_Some (stoi corpus !! w)) (sen ex)))
  ∧ (∀ msg, msg ∈ unk_warnings corpus ignore_unk ↔
       ignore_unk = true
       ∧ ∃ ex w, ex ∈ examples corpus ∧ w ∈ sen ex ∧ stoi corpus !! w = None
                 ∧ msg = warn_msg w)
  ∧ calc_accuracy self corpus activations counter_activations
      use_full_model_probs ignore_unk
    = (unk_warnings corpus ignore_unk,
       a ← mask_select activations (unk_mask corpus ignore_unk);
       ids ← comprehension (λ ex, stoi_getitem corpus (token ex)) (examples corpus);
       token_ids ← imask_select (torch_tensor ids) (unk_mask corpus ignore_unk);
       match counter_activations with
       | None =>
           cids ← comprehension (λ ex, stoi_getitem corpus (counter_token ex))
                    (examples corpus);
           counter_token_ids ← imask_select (torch_tensor cids) (unk_mask corpus ignore_unk);
           single_context_accuracy self a token_ids counter_token_ids
       | Some b =>
           b ← mask_select b (unk_mask corpus ignore_unk);
           dual_context_accuracy self a b token_ids use_full_model_probs
       end).
Proof.
  split; [apply create_unk_sen_mask_spec|].
  split; [unfold unk_mask; by rewrite length_map|].
  split.
  { intros i ex Hex. eexists. split.
    - unfold unk_mask. rewrite list_lookup_fmap, Hex. reflexivity.
    - rewrite orb_true_iff, negb_true_iff, forallb_forall, Forall_forall.
      split; (intros [?|Hall]; [by left|right]); intros w Hw.
      + apply stoi_contains_spec, Hall. by apply list_elem_of_In.
      + apply stoi_contains_spec, Hall. by apply list_elem_of_In. }
  split.
  { intros msg. unfold unk_warnings. destruct ignore_unk.
    - rewrite elem_of_concat. split.
      + intros (l & Hmsg & Hl). split; [done|].
        apply list_elem_of_fmap in Hl as (ex & -> & Hex).
        apply list_elem_of_fmap in Hmsg as (w & -> & Hw).
        apply list_elem_of_filter in Hw as [Hw Hin].
        exists ex, w. repeat split; try done.
        unfold stoi_contains in Hw. apply bool_decide_eq_false in Hw.
        by apply eq_None_not_Some.
      + intros (_ & ex & w & Hex & Hw & Hnone & ->).
        exists (map warn_msg (missing_tokens corpus ex)). split.
        * apply list_elem_of_fmap. exists w. split; [done|].
          apply list_elem_of_filter. split; [|done].
          unfold stoi_contains. apply bool_decide_eq_false. rewrite Hnone.
          by intros [? ?].
        * apply list_elem_of_fmap. by exists ex.
    - split; [by intros ?%elem_of_nil|]. by intros [? _]. }
  unfold calc_accuracy. rewrite create_unk_sen_mask_spec. reflexivity.
Qed.

(** Out-of-vocabulary targets.  The lookups of [calc_accuracy] run over
    the whole corpus before any mask is applied, so an absent target
    raises whatever [ignore_unk] says. *)
Lemma comprehension_KeyError (corpus : Corpus) (field : Example → string)
    (exs : list Example) :
  (∃ ex, ex ∈ exs ∧ stoi corpus !! field ex = None) →
  ∃ ex, ex ∈ exs ∧ stoi corpus !! field ex = None
        ∧ comprehension (λ ex, stoi_getitem corpus (field ex)) exs
          = Err (KeyError (field ex)).
Proof.
  induction exs as [|ex exs IH]; intros (ex' & Hin & Hnone).
  - by apply elem_of_nil in Hin.
  - rewrite comprehension_cons. cbv beta.
    destruct (stoi_getitem corpus (field ex)) as [i|e] eqn:Hex.
    + apply elem_of_cons in Hin as [->|Hin].
      { unfold stoi_getitem in Hex. by rewrite Hnone in Hex. }
      destruct IH as (ex'' & Hin'' & Hnone'' & Hc); [eauto|].
      exists ex''. rewrite Hc. split; [by right|done].
    + exists ex. unfold stoi_getitem in Hex.
      destruct (stoi corpus !! field ex) eqn:Hl; [done|].
      injection Hex as <-. split; [left|done].
Qed.

Lemma calc_accuracy_unknown_token (self : LanguageModel) (corpus : Corpus)
    (activations : tensor R) (counter_activations : option (tensor R))
    (use_full_model_probs ignore_unk : bool) :
  is_ok (mask_select activations (unk_mask corpus ignore_unk)) = true →
  (∃ ex, ex ∈ examples corpus ∧ stoi corpus !! token ex = None) →
  ∃ ex, ex ∈ examples corpus ∧ stoi corpus !! token ex = None
    ∧ calc_accuracy self corpus activations counter_activations
        use_full_model_probs ignore_unk
      = (unk_warnings corpus ignore_unk, Err (KeyError (token ex))).
Proof.
  intros Hsel Hex. unfold calc_accuracy. rewrite create_unk_sen_mask_spec. simpl.
  destruct (mask_select activations _) as [a|e]; [|done]. simpl.
  destruct (comprehension_KeyError corpus token _ Hex) as (ex & Hin & Hnone & Hc).
  exists ex. rewrite Hc. done.
Qed.

(** C2 (failing input).  With [ignore_unk] set and a target token outside
    the vocabulary, [calc_accuracy] raises the vocabulary-lookup error:
    without any warning when the words of the sentence are all known, and
    after the warning when the unknown word also occurs in the sentence
    (which the mask then excludes). *)
Theorem unknown_target_fatal_despite_ignore_unk :
  calc_accuracy model_ab corpus_unknown_target (of_rows 1 [[1%R]]) None true true
    = ([], Err (KeyError "zzz"))
  ∧ calc_accuracy model_ab corpus_unknown_word_and_target (of_rows 1 [[1%R]]) None true true
    = (["'zzz' is not part of model vocab!"], Err (KeyError "zzz"))
  ∧ create_unk_sen_mask corpus_unknown_word_and_target true
    = ([false], ["'zzz' is not part of model vocab!"]).
Proof. repeat split; vm_compute; reflexivity. Qed.

End MaskFacts.

(** ** Facts about the tensor operations *)

Module TorchFacts.
Import PyFacts.

Lemma rows_of_concat {T : Type} (m : nat) (l : list (list T)) :
  Forall (λ r, length r = m) l → rows_of (length l) m (concat l) = l.
Proof.
  induction 1 as [|r l Hr Hl IH]; simpl; [done|].
  rewrite take_app_length', drop_app_length' by done. by rewrite IH.
Qed.

Lemma rows_of_concat' {T : Type} (n m : nat) (l : list (list T)) :
  length l = n → Forall (λ r, length r = m) l → rows_of n m (concat l) = l.
Proof. intros <-. apply rows_of_concat. Qed.

Lemma concat_rows_of {T : Type} (n m : nat) (d : list T) :
  length d = n * m → concat (rows_of n m d) = d.
Proof.
  revert d. induction n as [|n IH]; intros d Hd; simpl.
  - by destruct d.
  - rewrite IH by (rewrite length_drop; lia). apply take_drop.
Qed.

Lemma rows_of_length {T : Type} (n m : nat) (d : list T) :
  length (rows_of n m d) = n.
Proof. revert d. induction n; intros d; simpl; auto. Qed.

Lemma rows_of_Forall {T : Type} (n m : nat) (d : list T) :
  length d = n * m → Forall (λ r, length r = m) (rows_of n m d).
Proof.
  revert d. induction n as [|n IH]; intros d Hd; simpl; constructor.
  - rewrite length_take. lia.
  - apply IH. rewrite length_drop. lia.
Qed.

Lemma concat_length_rows {T : Type} (m : nat) (l : list (list T)) :
  Forall (λ r, length r = m) l → length (concat l) = length l * m.
Proof.
  induction 1 as [|r l Hr Hl IH]; simpl; [done|].
  rewrite length_app. lia.
Qed.

(** Row [i] of a row-major storage. *)
Lemma take_drop_concat {T : Type} (m i : nat) (l : list (list T)) (r : list T) :
  Forall (λ r, length r = m) l → l !! i = Some r →
  take m (drop (i * m) (concat l)) = r.
Proof.
  intros Hl. revert i. induction Hl as [|r' l Hr Hl IH]; intros i Hi.
  - done.
  - destruct i as [|i]; simpl in *.
    + injection Hi as ->. by rewrite drop_0, take_app_length'.
    + rewrite drop_app_add' by done. by apply IH.
Qed.

Lemma lookup_concat {T : Type} (m i j : nat) (l : list (list T)) (r : list T) :
  Forall (λ r, length r = m) l → l !! i = Some r → j < m →
  concat l !! (i * m + j) = r !! j.
Proof.
  intros Hl Hi Hj.
  rewrite <- (take_drop_concat m i l r Hl Hi).
  rewrite lookup_take_lt, lookup_drop by done. done.
Qed.

(** Broadcasting of equal shapes. *)
Lemma broadcast_rev_same (s : list nat) : broadcast_rev s s = Some s.
Proof.
  induction s as [|a s IH]; simpl; [done|].
  rewrite IH. simpl. by rewrite Nat.eqb_refl.
Qed.

Lemma broadcast_shapes_same (s : list nat) : broadcast_shapes s s = Some s.
Proof.
  unfold broadcast_shapes. rewrite broadcast_rev_same. simpl. by rewrite rev_involutive.
Qed.

Lemma pad_shape_same (s : list nat) : pad_shape (length s) s = s.
Proof. unfold pad_shape. by rewrite Nat.sub_diag. Qed.

Lemma expand_same {T : Type} (s : list nat) (d : list T) :
  length d = numel s → expand s s d = d.
Proof.
  revert d. induction s as [|a s IH]; intros d Hd; simpl; [done|].
  rewrite Nat.eqb_refl.
  rewrite <- (concat_rows_of a (numel s) d) at 2 by done.
  f_equal. rewrite <- (map_id (rows_of a (numel s) d)) at 2.
  apply map_ext_Forall.
  eapply Forall_impl; [apply rows_of_Forall; done|]. simpl. auto.
Qed.

Lemma broadcast_map2_same {A B C : Type} (f : A → B → C) (a : tensor A) (b : tensor B) :
  shape a = shape b →
  length (data a) = numel (shape a) → length (data b) = numel (shape b) →
  broadcast_map2 f a b = Ok (mkTensor (shape a) (zip_with f (data a) (data b))).
Proof.
  intros Hs Ha Hb. unfold broadcast_map2.
  rewrite <- Hs, broadcast_shapes_same, pad_shape_same, !expand_same; try done.
  by rewrite Hs.
Qed.

Lemma broadcast_map2__same {A B : Type} (f : A → B → A) (a : tensor A) (b : tensor B) :
  shape a = shape b →
  length (data a) = numel (shape a) → length (data b) = numel (shape b) →
  broadcast_map2_ f a b = Ok (mkTensor (shape a) (zip_with f (data a) (data b))).
Proof.
  intros Hs Ha Hb. unfold broadcast_map2_.
  rewrite <- Hs, broadcast_shapes_same. rewrite decide_True by done.
  by apply broadcast_map2_same.
Qed.

End TorchFacts.

(** ** The tensor pipeline of the accuracy functions *)

Module AccuracyFacts.
Import Task TaskSpec PyFacts TorchFacts.

Lemma zip_with_ext_in {A B C : Type} (f g : A → B → C) (l : list A) (k : list B) :
  (∀ x y, x ∈ l → y ∈ k → f x y = g x y) → zip_with f l k = zip_with g l k.
Proof.
  revert k. induction l as [|x l IH]; intros [|y k] Hfg; simpl; try done.
  f_equal.
  - apply Hfg; left.
  - apply IH. intros x' y' Hx Hy. apply Hfg; by right.
Qed.

Lemma concat_singletons {A B : Type} (f : A → B) (l : list A) :
  concat (map (λ x, [f x]) l) = map f l.
Proof. induction l; simpl; congruence. Qed.

Lemma concat_zip_with_singletons {A B C : Type} (f : A → B → C) (l : list A) (k : list B) :
  concat (zip_with (λ x y, [f x y]) l k) = zip_with f l k.
Proof. revert k. induction l; intros [|y k]; simpl; try done. by f_equal. Qed.

Lemma rows_of_singletons {T : Type} (y : list T) :
  rows_of (length y) 1 y = map (λ v, [v]) y.
Proof. induction y as [|v y IH]; simpl; [done|]. rewrite drop_0. by f_equal. Qed.

Lemma column_singletons (y : list R) : column 0 (map (λ v, [v]) y) = y.
Proof. unfold column. rewrite map_map. simpl. apply map_id. Qed.

(** Indexing the decoder by token ids. *)
Lemma forallb_ltb (d : nat) (ids : list nat) :
  Forall (λ i, i < d) ids → forallb (λ i, i <? d) ids = true.
Proof.
  intros Hids. apply forallb_forall. intros i Hi%list_elem_of_In.
  rewrite Forall_forall in Hids. apply Nat.ltb_lt. auto.
Qed.

Lemma weight_lookup (W : list (list R)) (t : nat) :
  t < length W → W !! t = Some (weight W t).
Proof.
  intros Ht. unfold weight.
  destruct (nth_lookup_or_length W t []) as [Hl|Hl]; [done|lia].
Qed.

Lemma index_of_rows (H : nat) (W : list (list R)) (s : list nat) (ids : list nat) :
  Forall (λ r, length r = H) W → Forall (λ i, i < length W) ids →
  index (of_rows H W) (mkITensor Int64 s ids)
  = Ok (mkTensor (s ++ [H]) (concat (map (weight W) ids))).
Proof.
  intros HW Hids. unfold index, of_rows. simpl.
  rewrite forallb_ltb by done. do 3 f_equal.
  apply map_ext_Forall. eapply Forall_impl; [exact Hids|]. simpl. intros i Hi.
  rewrite Nat.mul_1_r. apply take_drop_concat; [done|]. by apply weight_lookup.
Qed.

Lemma index_of_list (b : list R) (s : list nat) (ids : list nat) :
  Forall (λ i, i < length b) ids →
  index (of_list b) (mkITensor Int64 s ids) = Ok (mkTensor s (map (bias_at b) ids)).
Proof.
  intros Hids. unfold index, of_list. simpl.
  rewrite forallb_ltb by done. rewrite app_nil_r. do 2 f_equal.
  rewrite <- (concat_singletons (bias_at b) ids). f_equal.
  apply map_ext_Forall. eapply Forall_impl; [exact Hids|]. simpl. intros i Hi.
  rewrite Nat.mul_1_r. unfold bias_at.
  destruct (lookup_lt_is_Some_2 b i Hi) as [x Hx].
  rewrite (nth_lookup_Some _ _ _ _ Hx), (drop_S _ _ _ Hx). done.
Qed.

(** [torch.bmm] of a batch of row vectors with a batch of column
    vectors: one inner product per batch element. *)
Lemma matmul_row_col (H : nat) (x y : list R) :
  length x = H → length y = H →
  concat (matmul_rows 1 (rows_of 1 H x) (rows_of H 1 y)) = [dot x y].
Proof.
  intros Hx Hy. simpl. rewrite take_ge by lia.
  rewrite <- Hy, rows_of_singletons, column_singletons. done.
Qed.

Lemma bmm_rows_cols (n H : nat) (L Rr : list (list R)) :
  matrix n H L → matrix n H Rr →
  bmm (mkTensor [n; 1; H] (concat L)) (mkTensor [n; H; 1] (concat Rr))
  = Ok (mkTensor [n; 1; 1] (zip_with dot L Rr)).
Proof.
  intros [HnL HL] [HnR HR]. unfold bmm. simpl shape. simpl data.
  cbv beta iota. rewrite !Nat.eqb_refl. simpl andb. cbv iota.
  rewrite Nat.mul_1_l, Nat.mul_1_r.
  rewrite !rows_of_concat' by done.
  do 2 f_equal. rewrite <- (concat_zip_with_singletons dot L Rr). f_equal.
  apply zip_with_ext_in. intros x y Hx Hy.
  rewrite Forall_forall in HL, HR.
  apply matmul_row_col; auto.
Qed.

Lemma squeeze_batch (n : nat) (d : list R) :
  squeeze (mkTensor [n; 1; 1] d) = mkTensor (if decide (n = 1) then [] else [n]) d.
Proof.
  unfold squeeze. simpl. f_equal.
  rewrite filter_cons. destruct (decide (n = 1)) as [->|Hn].
  - rewrite decide_False by auto. done.
  - rewrite decide_True by done. done.
Qed.

Lemma mean_to_float (s : list nat) (l : list bool) :
  mean (to_float (mkTensor s l)) = mean_indicator l.
Proof.
  unfold mean, to_float, mean_indicator. simpl.
  destruct l; simpl; [done|]. by rewrite length_map.
Qed.

Lemma dot_comm (u v : list R) : dot u v = dot v u.
Proof.
  unfold dot. revert v. induction u as [|x u IH]; intros [|y v]; simpl; try done.
  rewrite IH. lra.
Qed.

Lemma zip_with_length_eq {A B C : Type} (f : A → B → C) (l : list A) (k : list B) :
  length l = length k → length (zip_with f l k) = length l.
Proof. intros Hl. rewrite length_zip_with. lia. Qed.

(** The logits of [single_context_accuracy] before the comparison. *)
Lemma zip_with_logits (W : list (list R)) (b : list R) (A : list (list R)) (ids : list nat) :
  length A = length ids →
  zip_with Rplus (zip_with dot (map (weight W) ids) A) (map (bias_at b) ids)
  = zip_with (λ a t, logit W b a t) A ids.
Proof.
  revert ids. induction A as [|a A IH]; intros [|t ids] Hlen; simpl in *; try done.
  rewrite IH by lia. unfold logit. by rewrite (dot_comm a).
Qed.

Lemma zip_with_indicators (W : list (list R)) (b : list R) (A : list (list R))
    (ids cids : list nat) :
  zip_with Rgeb (zip_with (λ a t, logit W b a t) A ids)
                (zip_with (λ a t, logit W b a t) A cids)
  = single_indicators W b A ids cids.
Proof.
  unfold single_indicators. revert ids cids.
  induction A as [|a A IH]; intros [|t ids] [|t' cids]; simpl; rewrite ?IH; done.
Qed.

Section SingleContext.
Variables (V H n : nat) (W : list (list R)) (b : list R).
Variables (A : list (list R)) (ids cids : list nat).
Hypothesis HW : matrix V H W.
Hypothesis Hb : length b = V.
Hypothesis HA : matrix n H A.
Hypothesis Hids : length ids = n ∧ Forall (λ t, t < V) ids.
Hypothesis Hcids : length cids = n ∧ Forall (λ t, t < V) cids.

Let self := mkLanguageModel (of_rows H W) (of_list b).

(** The squeezed logits, up to the in-place addition of the bias. *)
Lemma single_context_accuracy_steps :
  single_context_accuracy self (of_rows H A) (long ids) (long cids)
  = (logits ← add_ (mkTensor (if decide (n = 1) then [] else [n])
                            (zip_with dot (map (weight W) ids) A))
                   (mkTensor [n] (map (bias_at b) ids));
     counter_logits ← add_ (mkTensor (if decide (n = 1) then [] else [n])
                                    (zip_with dot (map (weight W) cids) A))
                          (mkTensor [n] (map (bias_at b) cids));
     correct ← ge logits counter_logits;
     Ok (mean (to_float correct))).
Proof.
  destruct HW as [HV HWr], HA as [Hn HAr], Hids as [Hl Hi], Hcids as [Hcl Hci].
  unfold single_context_accuracy, self, long. simpl decoder_w. simpl decoder_b.
  rewrite !index_of_rows, !index_of_list by (rewrite ?Hb, ?HV; done).
  unfold of_rows. rewrite Hn, Hl, Hcl. simpl.
  assert (Hm : ∀ l : list nat, length l = n → Forall (λ t, t < V) l →
                 matrix n H (map (weight W) l)).
  { intros l Hlen Hlt. split; [by rewrite length_map|].
    apply Forall_map. eapply Forall_impl; [exact Hlt|]. simpl. intros t Ht.
    rewrite Forall_forall in HWr. apply HWr.
    apply list_elem_of_lookup. exists t. apply weight_lookup. lia. }
  rewrite !bmm_rows_cols by (auto || done). simpl.
  rewrite !squeeze_batch. done.
Qed.

(** With a batch of one sentence [squeeze()] also removes the batch
    dimension, and the in-place addition of the bias (shape [(1,)]) to the
    0-d logits is refused. *)
Lemma single_context_accuracy_one :
  n = 1 →
  single_context_accuracy self (of_rows H A) (long ids) (long cids) = Err RuntimeError.
Proof.
  intros Hn. rewrite single_context_accuracy_steps.
  rewrite decide_True by done. rewrite Hn. reflexivity.
Qed.

(** With any other batch size the result is the mean of the indicators
    [logit(target) >= logit(counter target)]. *)
Lemma single_context_accuracy_spec :
  n ≠ 1 →
  single_context_accuracy self (of_rows H A) (long ids) (long cids)
  = Ok (mean_indicator (single_indicators W b A ids cids)).
Proof.
  intros Hn. rewrite single_context_accuracy_steps.
  destruct HA as [HnA _], Hids as [Hl _], Hcids as [Hcl _].
  rewrite decide_False by done.
  unfold add_. rewrite !broadcast_map2__same;
    try done; simpl; rewrite ?length_zip_with, ?length_map; try lia.
  simpl. unfold ge. rewrite broadcast_map2_same;
    try done; simpl; rewrite ?length_zip_with, ?length_map; try lia.
  simpl. rewrite mean_to_float.
  rewrite !zip_with_logits by lia. by rewrite zip_with_indicators.
Qed.

End SingleContext.

Lemma weights_matrix (V H n : nat) (W : list (list R)) (ids : list nat) :
  matrix V H W → length ids = n → Forall (λ t, t < V) ids →
  matrix n H (map (weight W) ids).
Proof.
  intros [HV HWr] Hlen Hlt. split; [by rewrite length_map|].
  apply Forall_map. eapply Forall_impl; [exact Hlt|]. simpl. intros t Ht.
  rewrite Forall_forall in HWr. apply HWr.
  apply list_elem_of_lookup. exists t. apply weight_lookup. lia.
Qed.

Lemma zip_with_restricted (W : list (list R)) (A B : list (list R)) (ids : list nat) :
  length A = length ids → length B = length ids →
  zip_with Rgeb (zip_with dot (map (weight W) ids) A) (zip_with dot (map (weight W) ids) B)
  = restricted_indicators W A B ids.
Proof.
  unfold restricted_indicators. revert B ids.
  induction A as [|a A IH]; intros [|b' B] [|t ids] HA HB; simpl in *; try done.
  rewrite IH by lia. by rewrite (dot_comm a), (dot_comm b').
Qed.

Section DualRestricted.
Variables (V H n : nat) (W : list (list R)) (b : tensor R).
Variables (A B : list (list R)) (ids : list nat).
Hypothesis HW : matrix V H W.
Hypothesis HA : matrix n H A.
Hypothesis HB : matrix n H B.
Hypothesis Hids : length ids = n ∧ Forall (λ t, t < V) ids.

(** Restricted mode: the decoder bias is any tensor whatever. *)
Lemma dual_context_accuracy_restricted_spec :
  dual_context_accuracy (mkLanguageModel (of_rows H W) b)
    (of_rows H A) (of_rows H B) (long ids) false
  = Ok (mean_indicator (restricted_indicators W A B ids)).
Proof.
  pose proof HW as [HV HWr]. pose proof HA as [HnA HAr]. pose proof HB as [HnB HBr].
  destruct Hids as [Hl Hi].
  unfold dual_context_accuracy, long. simpl decoder_w.
  rewrite index_of_rows by (rewrite ?HV; done).
  unfold of_rows. rewrite HnA, HnB, Hl. simpl.
  rewrite !bmm_rows_cols by eauto using weights_matrix. simpl.
  unfold ge. rewrite broadcast_map2_same;
    try done; simpl; rewrite ?length_zip_with, ?length_map; try lia.
  simpl. rewrite mean_to_float. by rewrite zip_with_restricted by lia.
Qed.

End DualRestricted.

(** The scoring block of [warstadt_downstream]. *)
Lemma first_of_singleton_rows (n : nat) (d : list R) :
  length d = n → concat (map (take 1) (rows_of (n * 1) 1 d)) = d.
Proof.
  intros Hd. rewrite Nat.mul_1_r, <- Hd, rows_of_singletons, map_map. simpl.
  clear Hd. induction d; simpl; congruence.
Qed.

Lemma zip_with_warstadt (add_dec_bias : bool) (W : list (list R)) (b : list R)
    (A B : list (list R)) (ids : list nat) :
  length A = length ids → length B = length ids →
  zip_with Rgtb
    (if add_dec_bias
     then zip_with Rplus (zip_with dot (map (weight W) ids) A) (map (bias_at b) ids)
     else zip_with dot (map (weight W) ids) A)
    (if add_dec_bias
     then zip_with Rplus (zip_with dot (map (weight W) ids) B) (map (bias_at b) ids)
     else zip_with dot (map (weight W) ids) B)
  = warstadt_indicators add_dec_bias W b A B ids.
Proof.
  unfold warstadt_indicators, warstadt_score, logit. revert B ids.
  induction A as [|a A IH]; intros [|b' B] [|t ids] HA HB; simpl in *;
    try (by destruct add_dec_bias).
  specialize (IH B ids ltac:(lia) ltac:(lia)).
  destruct add_dec_bias; simpl; rewrite IH, (dot_comm a), (dot_comm b'); done.
Qed.

Section WarstadtScoring.
Variables (V H n : nat) (W : list (list R)) (b : list R).
Variables (A B : list (list R)) (ids : list nat).
Hypothesis HW : matrix V H W.
Hypothesis Hb : length b = V.
Hypothesis HA : matrix n H A.
Hypothesis HB : matrix n H B.
Hypothesis Hids : length ids = n ∧ Forall (λ t, t < V) ids.

Lemma warstadt_accuracy_spec (add_dec_bias : bool) :
  Warstadt.warstadt_accuracy (mkLanguageModel (of_rows H W) (of_list b))
    (mkITensor Int64 [n; 1] ids) (of_rows H A) (of_rows H B) add_dec_bias
  = Ok (mean_indicator (warstadt_indicators add_dec_bias W b A B ids)).
Proof.
  pose proof HW as [HV HWr]. pose proof HA as [HnA HAr]. pose proof HB as [HnB HBr].
  destruct Hids as [Hl Hi].
  unfold Warstadt.warstadt_accuracy. simpl decoder_w. simpl decoder_b.
  rewrite !index_of_rows, !index_of_list by (rewrite ?Hb, ?HV; done).
  unfold of_rows. rewrite HnA, HnB. simpl.
  rewrite !bmm_rows_cols by eauto using weights_matrix. simpl.
  rewrite !first_of_singleton_rows
    by (rewrite length_zip_with, length_map; lia).
  simpl. rewrite <- zip_with_warstadt by lia.
  destruct add_dec_bias; simpl.
  - unfold add_. rewrite !broadcast_map2__same;
      try done; simpl; rewrite ?length_zip_with, ?length_map; try lia.
    simpl. unfold gt. rewrite broadcast_map2_same;
      try done; simpl; rewrite ?length_zip_with, ?length_map; try lia.
    simpl. by rewrite mean_to_float.
  - unfold gt. rewrite broadcast_map2_same;
      try done; simpl; rewrite ?length_zip_with, ?length_map; try lia.
    simpl. by rewrite mean_to_float.
Qed.

End WarstadtScoring.

(** Full-probability mode: [A @ W.t() + b], [log_softmax] and the
    selection of the target's entry. *)
Lemma map_nth_seq (r : list R) : map (λ k, nth k r 0%R) (seq 0 (length r)) = r.
Proof.
  induction r as [|x r IH] using rev_ind; [done|].
  rewrite length_app, Nat.add_1_r, seq_S, map_app. simpl.
  rewrite nth_middle. f_equal.
  transitivity (map (λ k, nth k r 0%R) (seq 0 (length r))); [|exact IH].
  apply map_ext_in. intros k Hk%in_seq. apply app_nth1. lia.
Qed.

Lemma nth_column (j k : nat) (W : list (list R)) :
  nth j (column k W) 0%R = nth k (weight W j) 0%R.
Proof.
  unfold column, weight.
  rewrite <- (map_nth (λ r, nth k r 0%R) W [] j). by destruct k.
Qed.

Lemma column_of_columns (V H j : nat) (W : list (list R)) :
  matrix V H W → j < V →
  column j (map (λ k, column k W) (seq 0 H)) = weight W j.
Proof.
  intros [HV HWr] Hj. unfold column at 1. rewrite map_map.
  assert (Hlen : length (weight W j) = H).
  { rewrite Forall_forall in HWr. apply HWr, list_elem_of_lookup.
    exists j. apply weight_lookup. lia. }
  transitivity (map (λ k, nth k (weight W j) 0%R) (seq 0 H)).
  - apply map_ext. intros k. apply nth_column.
  - rewrite <- Hlen. apply map_nth_seq.
Qed.

Lemma column_length (k : nat) (W : list (list R)) : length (column k W) = length W.
Proof. unfold column. apply length_map. Qed.

Lemma t_of_rows (V H : nat) (W : list (list R)) :
  matrix V H W →
  t_ (of_rows H W) = Ok (mkTensor [H; V] (concat (map (λ k, column k W) (seq 0 H)))).
Proof.
  intros [HV HWr]. unfold t_, of_rows. simpl. rewrite HV.
  by rewrite rows_of_concat'.
Qed.

Lemma matmul_decoder (V H n : nat) (W A : list (list R)) :
  matrix V H W → matrix n H A →
  matmul (of_rows H A) (mkTensor [H; V] (concat (map (λ k, column k W) (seq 0 H))))
  = Ok (mkTensor [n; V] (concat (map (λ a, map (λ j, dot a (weight W j)) (seq 0 V)) A))).
Proof.
  intros HW [Hn HAr]. pose proof HW as [HV HWr]. unfold matmul, of_rows. simpl.
  rewrite Nat.eqb_refl, Hn. do 3 f_equal.
  rewrite !rows_of_concat' by
    (solve [ done
           | by rewrite length_map, length_seq
           | apply Forall_map, Forall_forall; intros k _; simpl;
             by rewrite column_length ]).
  unfold matmul_rows. apply map_ext. intros a. apply map_ext_in.
  intros j Hj%in_seq. f_equal. apply (column_of_columns V H); [done|lia].
Qed.

Lemma broadcast_shapes_row (n V : nat) : broadcast_shapes [n; V] [V] = Some [n; V].
Proof. unfold broadcast_shapes. simpl. by rewrite Nat.eqb_refl. Qed.

Lemma expand_row (n V : nat) (b : list R) :
  length b = V → expand [1; V] [n; V] b = concat (replicate n b).
Proof.
  intros Hb.
  assert (Hn : numel [V] = V) by (simpl; lia).
  change (expand [1; V] [n; V] b) with
    (if 1 =? n then concat (map (expand [V] [V]) [take (numel [V]) b])
     else concat (replicate n (concat (map (expand [V] [V]) [take (numel [V]) b])))).
  rewrite take_ge by lia. cbn [map]. rewrite expand_same by lia.
  cbn [concat]. rewrite app_nil_r.
  destruct (Nat.eqb_spec 1 n) as [<-|]; [|done]. simpl. by rewrite app_nil_r.
Qed.

Lemma zip_with_concat_replicate (V : nat) (rows : list (list R)) (b : list R) :
  Forall (λ r, length r = V) rows → length b = V →
  zip_with Rplus (concat rows) (concat (replicate (length rows) b))
  = concat (map (λ r, zip_with Rplus r b) rows).
Proof.
  intros Hrows Hb. induction Hrows as [|r rows Hr _ IH]; simpl; [done|].
  rewrite zip_with_app by lia. by rewrite IH.
Qed.

Lemma add_bias (n V : nat) (rows : list (list R)) (b : list R) :
  matrix n V rows → length b = V →
  add (mkTensor [n; V] (concat rows)) (of_list b)
  = Ok (mkTensor [n; V] (concat (map (λ r, zip_with Rplus r b) rows))).
Proof.
  intros [Hn Hrows] Hb. unfold add, broadcast_map2, of_list. simpl shape. simpl data.
  rewrite Hb, broadcast_shapes_row. simpl length.
  change (pad_shape 2 [n; V]) with [n; V]. change (pad_shape 2 [V]) with [1; V].
  rewrite expand_same, expand_row by
    (try done; rewrite (concat_length_rows V) by done; simpl; lia).
  rewrite <- Hn. by rewrite (zip_with_concat_replicate V).
Qed.

Lemma zip_with_seq_bias (f : nat → R) (b : list R) :
  zip_with Rplus (map f (seq 0 (length b))) b
  = map (λ j, (f j + bias_at b j)%R) (seq 0 (length b)).
Proof.
  unfold bias_at. induction b as [|x b IH] using rev_ind; [done|].
  rewrite length_app, Nat.add_1_r, seq_S, !map_app.
  rewrite zip_with_app by (by rewrite length_map, length_seq).
  simpl. rewrite nth_middle. f_equal. rewrite IH.
  apply map_ext_in. intros k Hk%in_seq. f_equal. symmetry. apply app_nth1. lia.
Qed.

Lemma logits_rows (V : nat) (W : list (list R)) (b : list R) (A : list (list R)) :
  length b = V →
  map (λ r, zip_with Rplus r b) (map (λ a, map (λ j, dot a (weight W j)) (seq 0 V)) A)
  = map (λ a, map (logit W b a) (seq 0 V)) A.
Proof.
  intros <-. rewrite map_map. apply map_ext. intros a.
  by rewrite zip_with_seq_bias.
Qed.

Lemma zip_seq_rows {X : Type} (F : list R → nat → X) (Q P : list (list R)) (ids : list nat) :
  map (λ ij, F (nth ij.1 (Q ++ P) []) ij.2) (zip (seq (length Q) (length P)) ids)
  = zip_with F P ids.
Proof.
  revert Q ids. induction P as [|p P IH]; intros Q [|t ids]; simpl; try done.
  rewrite nth_middle. f_equal.
  specialize (IH (Q ++ [p]) ids). rewrite length_app, Nat.add_1_r in IH.
  rewrite <- IH. apply map_ext. intros ij. by rewrite <- app_assoc.
Qed.

Lemma index_pairs_rows (n V : nat) (P : list (list R)) (ids : list nat) :
  matrix n V P → length ids = n → Forall (λ t, t < V) ids →
  index_pairs (mkTensor [n; V] (concat P)) (seq 0 n) (long ids)
  = Ok (mkTensor [n] (zip_with (λ p t, nth t p 0%R) P ids)).
Proof.
  intros [Hn HP] Hl Hi. unfold index_pairs, long.
  cbn [idtype shape ishape idata data].
  rewrite length_seq, Hl, broadcast_shapes_same.
  rewrite !expand_same by (simpl; rewrite ?length_seq; lia).
  rewrite (comprehension_Ok _ (λ ij, nth ij.2 (nth ij.1 ([] ++ P) []) 0%R)).
  - simpl. do 2 f_equal. rewrite <- Hn. apply (zip_seq_rows (λ p t, nth t p 0%R) [] P ids).
  - intros [i t] Hit. simpl.
    apply list_elem_of_lookup in Hit as [k Hk].
    apply lookup_zip_with_Some in Hk as (i' & t' & [= <- <-] & Hseq & Hids).
    apply lookup_seq in Hseq as [-> Hk].
    assert (Ht : t < V).
    { rewrite Forall_forall in Hi. apply Hi, list_elem_of_lookup. eauto. }
    simpl. rewrite (proj2 (Nat.ltb_lt k n)), (proj2 (Nat.ltb_lt t V)) by lia. simpl.
    destruct (nth_lookup_or_length P k []) as [HPk|]; [|lia].
    rewrite (lookup_concat V k t P _ HP HPk Ht).
    assert (HlenP : length (nth k P []) = V).
    { rewrite Forall_forall in HP. apply HP, list_elem_of_lookup. eauto. }
    destruct (nth_lookup_or_length (nth k P []) t 0%R) as [->|]; [done|lia].
Qed.

Lemma log_softmax_rows (n V : nat) (rows : list (list R)) :
  matrix n V rows →
  log_softmax_dim1 (mkTensor [n; V] (concat rows))
  = Ok (mkTensor [n; V] (concat (map log_softmax_row rows))).
Proof.
  intros [Hn Hrows]. unfold log_softmax_dim1. simpl.
  by rewrite rows_of_concat'.
Qed.

Lemma nth_log_prob (W : list (list R)) (b : list R) (a : list R) (t : nat) :
  t < length W →
  nth t (log_softmax_row (map (logit W b a) (seq 0 (length W)))) 0%R = log_prob W b a t.
Proof.
  intros Ht. unfold log_softmax_row, log_prob.
  set (row := map (logit W b a) (seq 0 (length W))).
  assert (Hrow : row !! t = Some (logit W b a t)).
  { unfold row. rewrite list_lookup_fmap, lookup_seq_lt by done. done. }
  apply nth_lookup_Some. by rewrite list_lookup_fmap, Hrow.
Qed.

Lemma zip_with_full (W : list (list R)) (b : list R) (A B : list (list R)) (ids : list nat) :
  length A = length ids → length B = length ids → Forall (λ t, t < length W) ids →
  zip_with Rgeb
    (zip_with (λ p t, nth t p 0%R)
       (map log_softmax_row (map (λ a, map (logit W b a) (seq 0 (length W))) A)) ids)
    (zip_with (λ p t, nth t p 0%R)
       (map log_softmax_row (map (λ a, map (logit W b a) (seq 0 (length W))) B)) ids)
  = full_indicators W b A B ids.
Proof.
  unfold full_indicators. revert B ids.
  induction A as [|a A IH]; intros [|b' B] [|t ids] HA HB Hi; simpl in *; try done.
  apply Forall_cons in Hi as [Ht Hi].
  rewrite IH by (done || lia). by rewrite !nth_log_prob.
Qed.

#[local] Arguments log_softmax_dim1 : simpl never.
#[local] Arguments index_pairs : simpl never.
#[local] Arguments matmul : simpl never.
#[local] Arguments add : simpl never.
#[local] Arguments ge : simpl never.
#[local] Arguments t_ : simpl never.

Section DualFull.
Variables (V H n : nat) (W : list (list R)) (b : list R).
Variables (A B : list (list R)) (ids : list nat).
Hypothesis HW : matrix V H W.
Hypothesis Hb : length b = V.
Hypothesis HA : matrix n H A.
Hypothesis HB : matrix n H B.
Hypothesis Hids : length ids = n ∧ Forall (λ t, t < V) ids.

Lemma logits_matrix (X : list (list R)) :
  length X = n → matrix n V (map (λ a, map (logit W b a) (seq 0 V)) X).
Proof.
  intros HX. split; [by rewrite length_map|].
  apply Forall_map, Forall_forall. intros a _. simpl.
  by rewrite length_map, length_seq.
Qed.

Lemma log_softmax_matrix (X : list (list R)) :
  length X = n →
  matrix n V (map log_softmax_row (map (λ a, map (logit W b a) (seq 0 V)) X)).
Proof.
  intros HX. split; [by rewrite !length_map|].
  apply Forall_map, Forall_map, Forall_forall. intros a _. simpl.
  unfold log_softmax_row. by rewrite !length_map, length_seq.
Qed.

Lemma dual_context_accuracy_full_spec :
  dual_context_accuracy (mkLanguageModel (of_rows H W) (of_list b))
    (of_rows H A) (of_rows H B) (long ids) true
  = Ok (mean_indicator (full_indicators W b A B ids)).
Proof.
  pose proof HW as [HV HWr]. pose proof HA as [HnA HAr]. pose proof HB as [HnB HBr].
  destruct Hids as [Hl Hi].
  unfold dual_context_accuracy. cbn [decoder_w decoder_b].
  assert (Hdots : ∀ X, length X = n →
            matrix n V (map (λ a, map (λ j, dot a (weight W j)) (seq 0 V)) X)).
  { intros X HX. split; [by rewrite length_map|].
    apply Forall_map, Forall_forall. intros a _. simpl.
    by rewrite length_map, length_seq. }
  repeat first
    [ ok_step
    | rewrite (t_of_rows V H W HW)
    | rewrite (matmul_decoder V H n) by done
    | rewrite (add_bias n V) by auto
    | rewrite (logits_rows V) by done
    | rewrite (log_softmax_rows n V) by auto using logits_matrix
    | progress (unfold shape0; cbn [shape])
    | rewrite (index_pairs_rows n V) by auto using log_softmax_matrix ].
  unfold ge. rewrite broadcast_map2_same;
    try done; simpl; rewrite ?length_zip_with, ?length_map; try lia.
  rewrite ?ret_bind. cbn [shape data]. rewrite mean_to_float. rewrite <- HV.
  rewrite zip_with_full; [done|lia|lia|by rewrite HV].
Qed.

End DualFull.

(** ** Comparisons, indicators and means *)

Lemma Rgeb_spec (x y : R) : Rgeb x y = true ↔ (x >= y)%R.
Proof. unfold Rgeb. destruct (Rge_dec x y); split; intros; (done || contradiction). Qed.

Lemma Rgtb_spec (x y : R) : Rgtb x y = true ↔ (x > y)%R.
Proof. unfold Rgtb. destruct (Rgt_dec x y); split; intros; (done || contradiction). Qed.

Lemma Rgeb_refl (x : R) : Rgeb x x = true.
Proof. apply Rgeb_spec. lra. Qed.

Lemma Rgtb_irrefl (x : R) : Rgtb x x = false.
Proof. apply not_true_is_false. rewrite Rgtb_spec. lra. Qed.

Lemma Rsum_indicators_bounds (l : list bool) :
  (0 <= Rsum (map bool_to_R l) <= INR (length l))%R.
Proof.
  induction l as [|x l IH]; [simpl; lra|].
  change (length (x :: l)) with (S (length l)). rewrite S_INR.
  change (Rsum (map bool_to_R (x :: l)))
    with (bool_to_R x + Rsum (map bool_to_R l))%R.
  destruct IH as [Hlo Hhi].
  destruct x; [change (bool_to_R true) with 1%R|change (bool_to_R false) with 0%R]; lra.
Qed.

Lemma mean_indicator_nil : mean_indicator [] = NaN.
Proof. reflexivity. Qed.

Lemma mean_indicator_unit (l : list bool) :
  l ≠ [] → in_unit_interval (mean_indicator l).
Proof.
  intros Hl. destruct l as [|x l]; [done|]. unfold mean_indicator.
  set (k := x :: l). pose proof (Rsum_indicators_bounds k) as [Hlo Hhi].
  assert (Hpos : (0 < INR (length k))%R) by (apply lt_0_INR; simpl; lia).
  unfold in_unit_interval. split.
  - apply Rmult_le_pos; [done|]. left. by apply Rinv_0_lt_compat.
  - apply (Rmult_le_reg_r (INR (length k))); [done|].
    unfold Rdiv. rewrite Rmult_assoc, Rinv_l by lra. lra.
Qed.

(** The indicator of example [i] in a list built with [zip_with]. *)
Lemma lookup_indicator {X Y : Type} (f : X * X → Y → bool) (A B : list X) (ids : list Y)
    (i : nat) (a a' : X) (t : Y) :
  A !! i = Some a → B !! i = Some a' → ids !! i = Some t →
  zip_with f (zip A B) ids !! i = Some (f (a, a') t).
Proof.
  intros Ha Hb Ht. apply lookup_zip_with_Some. exists (a, a'), t.
  split; [done|]. split; [|done].
  apply lookup_zip_with_Some. by exists a, a'.
Qed.

(** C10. In restricted mode the decoder bias is never read: two models
    that differ only in their bias give the same result on the same
    activations and token ids, whatever these are, both when
    [dual_context_accuracy] is called directly and through
    [calc_accuracy] on a corpus with counter activations. *)
Theorem restricted_mode_ignores_bias (decoder_w b1 b2 : tensor R)
    (activations counter_activations : tensor R) (token_ids : itensor)
    (corpus : Corpus) (ignore_unk : bool) :
  dual_context_accuracy (mkLanguageModel decoder_w b1)
      activations counter_activations token_ids false
    = dual_context_accuracy (mkLanguageModel decoder_w b2)
      activations counter_activations token_ids false
  ∧ calc_accuracy (mkLanguageModel decoder_w b1) corpus
      activations (Some counter_activations) false ignore_unk
    = calc_accuracy (mkLanguageModel decoder_w b2) corpus
      activations (Some counter_activations) false ignore_unk.
Proof.
  assert (Hdual : ∀ a ca ids,
            dual_context_accuracy (mkLanguageModel decoder_w b1) a ca ids false
            = dual_context_accuracy (mkLanguageModel decoder_w b2) a ca ids false).
  { intros a ca ids. unfold dual_context_accuracy. cbn [Task.decoder_w]. reflexivity. }
  split; [apply Hdual|].
  unfold calc_accuracy. f_equal.
Qed.

(** C4 (failing input).  With a single retained sentence
    [single_context_accuracy] raises instead of returning the indicator:
    [squeeze()] turns the [(1, 1, 1)] product into a 0-d tensor, to which
    the bias of shape [(1,)] cannot be added in place.  The same happens
    through [calc_accuracy] on a one-sentence corpus. *)
Theorem single_context_one_sentence_raises :
  single_context_accuracy model_ab (of_rows 1 [[1%R]]) (long [0]) (long [1])
    = Err RuntimeError
  ∧ calc_accuracy model_ab corpus_one (of_rows 1 [[1%R]]) None true false
    = ([], Err RuntimeError).
Proof. split; vm_compute; reflexivity. Qed.

(** What C4 says holds for every other number of retained sentences. *)
Lemma single_context_accuracy_mean (V H n : nat) (W : list (list R)) (b : list R)
    (A : list (list R)) (ids cids : list nat) :
  matrix V H W → length b = V → matrix n H A →
  length ids = n → Forall (λ t, t < V) ids →
  length cids = n → Forall (λ t, t < V) cids →
  n ≠ 1 →
  single_context_accuracy (mkLanguageModel (of_rows H W) (of_list b))
    (of_rows H A) (long ids) (long cids)
  = Ok (mean_indicator (single_indicators W b A ids cids))
  ∧ ∀ i a t t', A !! i = Some a → ids !! i = Some t → cids !! i = Some t' →
      ∃ ind, single_indicators W b A ids cids !! i = Some ind
             ∧ (ind = true ↔ (logit W b a t >= logit W b a t')%R).
Proof.
  intros HW Hb HA Hl Hi Hcl Hci Hn. split.
  - by apply (single_context_accuracy_spec V H n).
  - intros i a t t' Ha Ht Ht'. eexists. split; [|apply Rgeb_spec].
    unfold single_indicators. apply lookup_zip_with_Some. exists a, (t, t').
    split; [done|]. split; [done|]. apply lookup_zip_with_Some. by exists t, t'.
Qed.

(** C5 (as amended).  On well-formed inputs [dual_context_accuracy]
    returns, in both modes, the mean of the per-example indicators, and
    the indicator of an example is 1 exactly when the score of the target
    in context A is greater than or equal to its score in context B (the
    log-probability in full-probability mode, the raw weight-row product
    in restricted mode), so a tie counts as correct.  The comparison of
    [warstadt_downstream] is strict: its indicator is 1 exactly when the
    score in the first context is greater than the score in the second,
    and a tie counts as incorrect. *)
Theorem dual_context_indicator_means (V H n : nat) (W : list (list R)) (b : list R)
    (A B : list (list R)) (ids : list nat) :
  matrix V H W → length b = V → matrix n H A → matrix n H B →
  length ids = n → Forall (λ t, t < V) ids →
  dual_context_accuracy (mkLanguageModel (of_rows H W) (of_list b))
      (of_rows H A) (of_rows H B) (long ids) true
    = Ok (mean_indicator (full_indicators W b A B ids))
  ∧ dual_context_accuracy (mkLanguageModel (of_rows H W) (of_list b))
      (of_rows H A) (of_rows H B) (long ids) false
    = Ok (mean_indicator (restricted_indicators W A B ids))
  ∧ (∀ add_dec_bias,
       Warstadt.warstadt_accuracy (mkLanguageModel (of_rows H W) (of_list b))
         (mkITensor Int64 [n; 1] ids) (of_rows H A) (of_rows H B) add_dec_bias
       = Ok (mean_indicator (warstadt_indicators add_dec_bias W b A B ids)))
  ∧ (∀ i a a' t, A !! i = Some a → B !! i = Some a' → ids !! i = Some t →
       (∃ ind, full_indicators W b A B ids !! i = Some ind
               ∧ (ind = true ↔ (log_prob W b a t >= log_prob W b a' t)%R))
       ∧ (∃ ind, restricted_indicators W A B ids !! i = Some ind
                 ∧ (ind = true ↔ (dot a (weight W t) >= dot a' (weight W t))%R))
       ∧ (∀ add_dec_bias,
            ∃ ind, warstadt_indicators add_dec_bias W b A B ids !! i = Some ind
                   ∧ (ind = true ↔ (warstadt_score add_dec_bias W b a t
                                     > warstadt_score add_dec_bias W b a' t)%R))).
Proof.
  intros HW Hb HA HB Hl Hi.
  split; [by apply (dual_context_accuracy_full_spec V H n)|].
  split; [by apply (dual_context_accuracy_restricted_spec V H n)|].
  split; [intros add; by apply (warstadt_accuracy_spec V H n)|].
  intros i a a' t Ha Ha' Ht. repeat split.
  - eexists. split; [by apply lookup_indicator|]. apply Rgeb_spec.
  - eexists. split; [by apply lookup_indicator|]. apply Rgeb_spec.
  - intros add. eexists. split; [by apply lookup_indicator|]. apply Rgtb_spec.
Qed.

Lemma dual_context_indicator_means_witness :
  dual_context_accuracy model_ab (of_rows 1 [[1%R]; [3%R]]) (of_rows 1 [[2%R]; [0%R]])
      (long [0; 1]) true
    = Ok (mean_indicator
            (full_indicators [[1%R]; [2%R]] [0%R; 0%R] [[1%R]; [3%R]] [[2%R]; [0%R]] [0; 1]))
  ∧ dual_context_accuracy model_ab (of_rows 1 [[1%R]; [3%R]]) (of_rows 1 [[2%R]; [0%R]])
      (long [0; 1]) false
    = Ok (mean_indicator
            (restricted_indicators [[1%R]; [2%R]] [[1%R]; [3%R]] [[2%R]; [0%R]] [0; 1])).
Proof.
  pose proof (dual_context_indicator_means 2 1 2 [[1%R]; [2%R]] [0%R; 0%R]
                [[1%R]; [3%R]] [[2%R]; [0%R]] [0; 1]) as Hthm.
  destruct Hthm as (Hfull & Hres & _).
  - split; [reflexivity|]. repeat constructor.
  - reflexivity.
  - split; [reflexivity|]. repeat constructor.
  - split; [reflexivity|]. repeat constructor.
  - reflexivity.
  - repeat constructor.
  - split; [exact Hfull|exact Hres].
Defined.

(** C5 fails as stated for the scoring of [warstadt_downstream]: on a
    tie (the same hidden state in both contexts) its accuracy is 0, where
    [dual_context_accuracy] gives 1. *)
Lemma warstadt_tie_counterexample :
  Warstadt.warstadt_accuracy model_ab (mkITensor Int64 [1; 1] [0])
      (of_rows 1 [[1%R]]) (of_rows 1 [[1%R]]) false
    = Ok (Fin 0)
  ∧ Warstadt.warstadt_accuracy model_ab (mkITensor Int64 [1; 1] [0])
      (of_rows 1 [[1%R]]) (of_rows 1 [[1%R]]) true
    = Ok (Fin 0)
  ∧ dual_context_accuracy model_ab (of_rows 1 [[1%R]]) (of_rows 1 [[1%R]]) (long [0]) false
    = Ok (Fin 1).
Proof.
  assert (HW : matrix 2 1 [[1%R]; [2%R]]) by (split; [done|repeat constructor]).
  assert (HA : matrix 1 1 [[1%R]]) by (split; [done|repeat constructor]).
  assert (Hids : length [0] = 1 ∧ Forall (λ t, t < 2) [0]) by (split; [done|repeat constructor]).
  unfold model_ab. repeat split.
  - rewrite (warstadt_accuracy_spec 2 1 1) by done.
    unfold warstadt_indicators. simpl zip_with. rewrite Rgtb_irrefl.
    unfold mean_indicator. simpl. do 2 f_equal. lra.
  - rewrite (warstadt_accuracy_spec 2 1 1) by done.
    unfold warstadt_indicators. simpl zip_with. rewrite Rgtb_irrefl.
    unfold mean_indicator. simpl. do 2 f_equal. lra.
  - rewrite (dual_context_accuracy_restricted_spec 2 1 1) by done.
    unfold restricted_indicators. simpl zip_with. rewrite Rgeb_refl.
    unfold mean_indicator. simpl. do 2 f_equal. lra.
Qed.

(** ** Full-probability mode against restricted mode *)

Lemma Rgeb_shift (x y c d : R) : c = d → Rgeb (x + 0 - c) (y + 0 - d) = Rgeb x y.
Proof.
  intros ->. unfold Rgeb.
  destruct (Rge_dec (x + 0 - d) (y + 0 - d)), (Rge_dec x y); (done || lra).
Qed.

Lemma bias_at_zero (V t : nat) : bias_at (replicate V 0%R) t = 0%R.
Proof.
  unfold bias_at. revert t. induction V as [|V IH]; intros [|t]; simpl; auto.
Qed.

(** C1 (as amended).  With an all-zero bias, full-probability mode and
    restricted mode agree on the indicator of every example whose two
    contexts have the same softmax normaliser (the log of the sum of the
    exponentials of the logits over the vocabulary); when this holds for
    every example the two modes return the same accuracy. *)
Theorem modes_agree_on_equal_normalisers (V H n : nat) (W : list (list R))
    (A B : list (list R)) (ids : list nat) :
  matrix V H W → matrix n H A → matrix n H B →
  length ids = n → Forall (λ t, t < V) ids →
  (∀ i a a', A !! i = Some a → B !! i = Some a' →
     logsumexp (map (logit W (replicate V 0%R) a) (seq 0 V))
     = logsumexp (map (logit W (replicate V 0%R) a') (seq 0 V))) →
  full_indicators W (replicate V 0%R) A B ids = restricted_indicators W A B ids
  ∧ dual_context_accuracy (mkLanguageModel (of_rows H W) (of_list (replicate V 0%R)))
      (of_rows H A) (of_rows H B) (long ids) true
    = dual_context_accuracy (mkLanguageModel (of_rows H W) (of_list (replicate V 0%R)))
      (of_rows H A) (of_rows H B) (long ids) false.
Proof.
  intros HW HA HB Hl Hi Hnorm.
  assert (Hind : full_indicators W (replicate V 0%R) A B ids
                 = restricted_indicators W A B ids).
  { unfold full_indicators, restricted_indicators. apply list_eq. intros i.
    rewrite !lookup_zip_with.
    destruct (A !! i) as [a|] eqn:Ha; simpl; [|done].
    destruct (B !! i) as [a'|] eqn:Ha'; simpl; [|done].
    destruct (ids !! i) as [t|]; simpl; [|done].
    f_equal. unfold log_prob, logit. rewrite bias_at_zero.
    destruct HW as [-> _]. apply Rgeb_shift. by apply (Hnorm i). }
  split; [done|].
  rewrite (dual_context_accuracy_full_spec V H n),
    (dual_context_accuracy_restricted_spec V H n);
    try done; try (by rewrite length_replicate).
  by rewrite Hind.
Qed.

(** Rewrite the argument of every [exp] to the numeral it equals. *)
Ltac norm_exp :=
  repeat match goal with
         | |- context [exp ?x] =>
             lazymatch x with
             | 0%R => fail
             | 1%R => fail
             | _ => first [ replace x with 0%R by lra | replace x with 1%R by lra ]
             end
         end.

Lemma modes_agree_on_equal_normalisers_witness :
  full_indicators [[1; 0]; [0; 1]]%R (replicate 2 0%R) [[0; 1]%R] [[1; 0]%R] [0]
    = restricted_indicators [[1; 0]; [0; 1]]%R [[0; 1]%R] [[1; 0]%R] [0]
  ∧ dual_context_accuracy
      (mkLanguageModel (of_rows 2 [[1; 0]; [0; 1]]%R) (of_list (replicate 2 0%R)))
      (of_rows 2 [[0; 1]%R]) (of_rows 2 [[1; 0]%R]) (long [0]) true
    = dual_context_accuracy
      (mkLanguageModel (of_rows 2 [[1; 0]; [0; 1]]%R) (of_list (replicate 2 0%R)))
      (of_rows 2 [[0; 1]%R]) (of_rows 2 [[1; 0]%R]) (long [0]) false.
Proof.
  apply (modes_agree_on_equal_normalisers 2 2 1).
  - split; [reflexivity|]. repeat constructor.
  - split; [reflexivity|]. repeat constructor.
  - split; [reflexivity|]. repeat constructor.
  - reflexivity.
  - repeat constructor.
  - intros [|i] a a' Ha Ha'; [|done]. simpl in Ha, Ha'.
    injection Ha as <-. injection Ha' as <-.
    unfold logsumexp, logit, dot, weight, bias_at. simpl. f_equal.
    norm_exp. lra.
Defined.

(** C1 fails as stated.  With the all-zero bias of [model_tie], target 0
    and the contexts [[1]] and [[0]], the raw logits of the target tie
    (0 = 0) and restricted mode counts the example as correct, while the
    target is less probable in the first context (the other token takes
    more of the mass there) and full-probability mode counts it as
    incorrect. *)
Lemma modes_disagree_counterexample :
  decoder_b model_tie = of_list [0%R; 0%R]
  ∧ full_indicators [[0]; [1]]%R [0; 0]%R [[1%R]] [[0%R]] [0] = [false]
  ∧ restricted_indicators [[0]; [1]]%R [[1%R]] [[0%R]] [0] = [true]
  ∧ dual_context_accuracy model_tie (of_rows 1 [[1%R]]) (of_rows 1 [[0%R]]) (long [0]) true
    = Ok (Fin 0)
  ∧ dual_context_accuracy model_tie (of_rows 1 [[1%R]]) (of_rows 1 [[0%R]]) (long [0]) false
    = Ok (Fin 1).
Proof.
  assert (HW : matrix 2 1 [[0]; [1]]%R) by (split; [done|repeat constructor]).
  assert (HA : matrix 1 1 [[1%R]]) by (split; [done|repeat constructor]).
  assert (HB : matrix 1 1 [[0%R]]) by (split; [done|repeat constructor]).
  assert (Hids : length [0] = 1 ∧ Forall (λ t, t < 2) [0])
    by (split; [done|repeat constructor]).
  assert (Hfull : full_indicators [[0]; [1]]%R [0; 0]%R [[1%R]] [[0%R]] [0] = [false]).
  { unfold full_indicators. simpl zip_with. f_equal.
    apply not_true_is_false. rewrite Rgeb_spec.
    unfold log_prob, logsumexp, logit, dot, weight, bias_at. simpl.
    norm_exp.
    assert (Hlt : (ln (exp 0 + (exp 0 + 0)) < ln (exp 0 + (exp 1 + 0)))%R).
    { pose proof (exp_pos 0). pose proof (exp_increasing 0 1 ltac:(lra)).
      apply ln_increasing; lra. }
    lra. }
  assert (Hres : restricted_indicators [[0]; [1]]%R [[1%R]] [[0%R]] [0] = [true]).
  { unfold restricted_indicators. simpl zip_with. f_equal.
    apply Rgeb_spec. unfold dot, weight. simpl. lra. }
  split; [reflexivity|]. split; [done|]. split; [done|].
  unfold model_tie. split.
  - rewrite (dual_context_accuracy_full_spec 2 1 1) by done.
    rewrite Hfull. unfold mean_indicator. simpl. do 2 f_equal. lra.
  - rewrite (dual_context_accuracy_restricted_spec 2 1 1) by done.
    rewrite Hres. unfold mean_indicator. simpl. do 2 f_equal. lra.
Qed.

(** ** [calc_accuracy] on a whole corpus *)

Lemma keep_length {X : Type} (mask : list bool) (l : list X) :
  length mask = length l → length (keep mask l) = retained mask.
Proof.
  unfold keep, retained. rewrite length_map. revert l.
  induction mask as [|m mask IH]; intros [|x l] Hlen; simpl in *; try done.
  rewrite !filter_cons. simpl.
  destruct (decide (m = true)); simpl; rewrite IH by lia; done.
Qed.

Lemma keep_Forall {X : Type} (P : X → Prop) (mask : list bool) (l : list X) :
  Forall P l → Forall P (keep mask l).
Proof.
  intros Hl. unfold keep. apply Forall_map, Forall_forall.
  intros [m x] [_ Hin]%list_elem_of_filter. simpl.
  apply elem_of_zip_r in Hin. rewrite Forall_forall in Hl. auto.
Qed.

Lemma mask_select_of_rows (H : nat) (A : list (list R)) (mask : list bool) :
  length mask = length A → Forall (λ r, length r = H) A →
  mask_select (of_rows H A) mask = Ok (of_rows H (keep mask A)).
Proof.
  intros Hlen HA. unfold mask_select, of_rows. cbn [shape data].
  rewrite (proj2 (Nat.eqb_eq _ _) Hlen).
  assert (Hn : numel [H] = H) by (simpl; lia).
  rewrite Hn, rows_of_concat by done. done.
Qed.

Lemma imask_select_long (ids : list nat) (mask : list bool) :
  ids ≠ [] → length mask = length ids →
  imask_select (torch_tensor ids) mask = Ok (long (keep mask ids)).
Proof.
  intros Hne Hlen. unfold imask_select, torch_tensor, long. cbn [ishape idata idtype].
  rewrite (proj2 (Nat.eqb_eq _ _) Hlen). by destruct ids.
Qed.

Lemma comprehension_stoi (V : nat) (corpus : Corpus) (field : Example → string)
    (exs : list Example) :
  Forall (λ ex, ∃ i, stoi corpus !! field ex = Some i ∧ i < V) exs →
  ∃ ids, comprehension (λ ex, stoi_getitem corpus (field ex)) exs = Ok ids
         ∧ length ids = length exs ∧ Forall (λ t, t < V) ids.
Proof.
  induction 1 as [|ex exs (i & Hi & Hlt) _ (ids & Hc & Hlen & Hids)].
  - by exists [].
  - exists (i :: ids). rewrite comprehension_cons. cbv beta.
    assert (Hg : stoi_getitem corpus (field ex) = Ok i)
      by (unfold stoi_getitem; by rewrite Hi).
    rewrite Hg. ok_step. rewrite Hc. ok_step.
    split; [done|]. split; [simpl; lia|by constructor].
Qed.

Lemma indicators_lengths (W : list (list R)) (b : list R)
    (A B : list (list R)) (ids cids : list nat) (n : nat) :
  length A = n → length B = n → length ids = n → length cids = n →
  length (full_indicators W b A B ids) = n
  ∧ length (restricted_indicators W A B ids) = n
  ∧ length (single_indicators W b A ids cids) = n.
Proof.
  intros HA HB Hi Hc.
  unfold full_indicators, restricted_indicators, single_indicators.
  rewrite !length_zip_with. lia.
Qed.

Lemma mean_indicator_range (inds : list bool) :
  (0 < length inds → in_unit_interval (mean_indicator inds))
  ∧ (length inds = 0 → mean_indicator inds = NaN).
Proof.
  split.
  - intros Hlen. apply mean_indicator_unit. by destruct inds; [simpl in Hlen; lia|].
  - intros Hlen. by destruct inds.
Qed.

(** C7 (as amended).  On a non-empty corpus whose targets are in the
    vocabulary, with one activation row per sentence and a decoder of
    matching sizes, [calc_accuracy] returns the mean of one 0/1 indicator
    per retained sentence: a number in [[0, 1]] when at least one sentence
    is retained, and [NaN] (the mean of the empty tensor) when the mask
    excludes all of them.  This holds in dual-context evaluation in both
    modes, and in single-context evaluation when the number of retained
    sentences is not 1. *)
Theorem calc_accuracy_unit_interval (V H : nat) (W : list (list R)) (b : list R)
    (corpus : Corpus) (A : list (list R)) (counter : option (list (list R)))
    (use_full_model_probs ignore_unk : bool) :
  matrix V H W → length b = V →
  examples corpus ≠ [] →
  matrix (length (examples corpus)) H A →
  field_known V corpus token →
  match counter with
  | Some B => matrix (length (examples corpus)) H B
  | None => field_known V corpus counter_token
            ∧ retained (unk_mask corpus ignore_unk) ≠ 1
  end →
  ∃ inds,
    calc_accuracy (mkLanguageModel (of_rows H W) (of_list b)) corpus
      (of_rows H A) (of_rows H <$> counter) use_full_model_probs ignore_unk
    = (unk_warnings corpus ignore_unk, Ok (mean_indicator inds))
    ∧ length inds = retained (unk_mask corpus ignore_unk)
    ∧ (0 < retained (unk_mask corpus ignore_unk) →
         in_unit_interval (mean_indicator inds)
         ∧ mean_indicator inds
           = Fin (Rsum (map bool_to_R inds) / INR (retained (unk_mask corpus ignore_unk))))
    ∧ (retained (unk_mask corpus ignore_unk) = 0 → mean_indicator inds = NaN).
Proof.
  intros HW Hb Hne [HnA HA] Htok Hcounter.
  set (mask := unk_mask corpus ignore_unk).
  assert (Hmask : length mask = length (examples corpus))
    by (unfold mask, unk_mask; by rewrite length_map).
  destruct (comprehension_stoi V corpus token _ Htok) as (ids & Hc & Hlen & Hids).
  assert (Hidsne : ids ≠ []) by (destruct ids, (examples corpus); done).
  assert (HA' : matrix (retained mask) H (keep mask A)).
  { split; [apply keep_length; lia|by apply keep_Forall]. }
  assert (Hids' : length (keep mask ids) = retained mask ∧ Forall (λ t, t < V) (keep mask ids)).
  { split; [apply keep_length; lia|by apply keep_Forall]. }
  assert (Hfinal : ∀ inds, length inds = retained mask →
            length inds = retained mask
            ∧ (0 < retained mask →
                 in_unit_interval (mean_indicator inds)
                 ∧ mean_indicator inds
                   = Fin (Rsum (map bool_to_R inds) / INR (retained mask)))
            ∧ (retained mask = 0 → mean_indicator inds = NaN)).
  { intros inds Hl. pose proof (mean_indicator_range inds) as [Hpos Hzero].
    rewrite Hl in Hpos, Hzero. split; [done|]. split; [|done].
    intros Hr. split; [auto|]. unfold mean_indicator. rewrite Hl.
    destruct inds; [simpl in Hl; lia|done]. }
  unfold calc_accuracy. rewrite MaskFacts.create_unk_sen_mask_spec. cbn [fst snd]. fold mask.
  rewrite mask_select_of_rows by (done || lia). ok_step.
  rewrite Hc. ok_step. rewrite imask_select_long by (done || lia). ok_step.
  destruct counter as [B|]; cbn [fmap option_fmap option_map].
  - destruct Hcounter as [HnB HB].
    assert (HB' : matrix (retained mask) H (keep mask B)).
    { split; [apply keep_length; lia|by apply keep_Forall]. }
    rewrite mask_select_of_rows by (done || lia). ok_step.
    destruct (indicators_lengths W b (keep mask A) (keep mask B) (keep mask ids)
                (keep mask ids) (retained mask)) as (Hf & Hr & _);
      try apply HA'; try apply HB'; try apply Hids'.
    destruct use_full_model_probs.
    + rewrite (dual_context_accuracy_full_spec V H (retained mask)) by done.
      eexists. split; [reflexivity|]. by apply Hfinal.
    + rewrite (dual_context_accuracy_restricted_spec V H (retained mask)) by done.
      eexists. split; [reflexivity|]. by apply Hfinal.
  - destruct Hcounter as [Hctok Hn1].
    destruct (comprehension_stoi V corpus counter_token _ Hctok)
      as (cids & Hcc & Hclen & Hcids).
    assert (Hcidsne : cids ≠ []) by (destruct cids, (examples corpus); done).
    assert (Hcids' : length (keep mask cids) = retained mask
                     ∧ Forall (λ t, t < V) (keep mask cids)).
    { split; [apply keep_length; lia|by apply keep_Forall]. }
    rewrite Hcc. ok_step. rewrite imask_select_long by (done || lia). ok_step.
    destruct (indicators_lengths W b (keep mask A) (keep mask A) (keep mask ids)
                (keep mask cids) (retained mask)) as (_ & _ & Hs);
      try apply HA'; try apply Hids'; try apply Hcids'.
    rewrite (single_context_accuracy_spec V H (retained mask)) by done.
    eexists. split; [reflexivity|]. by apply Hfinal.
Qed.

Lemma calc_accuracy_unit_interval_witness :
  ∃ inds,
    calc_accuracy (mkLanguageModel (of_rows 1 [[1]; [2]]%R) (of_list [0; 0]%R)) corpus_two
      (of_rows 1 [[1]; [3]]%R) (of_rows 1 <$> None) true false
    = (unk_warnings corpus_two false, Ok (mean_indicator inds))
    ∧ length inds = retained (unk_mask corpus_two false)
    ∧ (0 < retained (unk_mask corpus_two false) →
         in_unit_interval (mean_indicator inds)
         ∧ mean_indicator inds
           = Fin (Rsum (map bool_to_R inds) / INR (retained (unk_mask corpus_two false))))
    ∧ (retained (unk_mask corpus_two false) = 0 → mean_indicator inds = NaN).
Proof.
  apply (calc_accuracy_unit_interval 2 1 [[1]; [2]]%R [0; 0]%R corpus_two
           [[1]; [3]]%R None true false).
  - split; [reflexivity|]. repeat constructor.
  - reflexivity.
  - discriminate.
  - split; [reflexivity|]. repeat constructor.
  - repeat constructor.
    + exists 0. split; [reflexivity|lia].
    + exists 1. split; [reflexivity|lia].
  - split.
    + repeat constructor.
      * exists 1. split; [reflexivity|lia].
      * exists 0. split; [reflexivity|lia].
    + vm_compute. lia.
Defined.

(** C7 fails as stated when no sentence is retained: with [ignore_unk]
    set and an unknown word in the only sentence, the accuracy is the mean
    of an empty tensor, [NaN], in single-context evaluation and in both
    modes of dual-context evaluation; [NaN] is not in [[0, 1]]. *)
Lemma accuracy_nan_counterexample :
  unk_mask corpus_all_excluded true = [false]
  ∧ calc_accuracy model_ab corpus_all_excluded (of_rows 1 [[1%R]]) None true true
    = (["'zzz' is not part of model vocab!"], Ok NaN)
  ∧ calc_accuracy model_ab corpus_all_excluded (of_rows 1 [[1%R]])
      (Some (of_rows 1 [[1%R]])) true true
    = (["'zzz' is not part of model vocab!"], Ok NaN)
  ∧ calc_accuracy model_ab corpus_all_excluded (of_rows 1 [[1%R]])
      (Some (of_rows 1 [[1%R]])) false true
    = (["'zzz' is not part of model vocab!"], Ok NaN)
  ∧ ¬ in_unit_interval NaN.
Proof.
  split; [vm_compute; reflexivity|].
  split; [vm_compute; reflexivity|].
  split; [vm_compute; reflexivity|].
  split; [vm_compute; reflexivity|].
  intros [].
Qed.

End AccuracyFacts.
